(** * orcanizator: the ORCA report reader and the batch driver

    A shallow embedding of [orcanizator.py] and the properties of its
    report parser ([orca_reader]), its per-molecule orchestrator
    ([orcanize]) and its batch driver ([orcanize_many]).

    Conventions of the embedding:
    - a Python [str] is the list of its code points ([list N]); the
      literals of the source are written [lit "..."];
    - a Python exception is a value of [exn]; a computation that may raise
      lives in [result];
    - a Python [dict] with [str] keys is a [gmap (list N) _];
    - the built-in [float], RDKit, the process launcher and the files found
      on disk are outside the repository: they are parameters of the
      development ([float_gt0] and the record [world]). *)

From Stdlib Require Import ZArith NArith List String Ascii Lia.
From Stdlib Require Import DecimalString DecimalZ.
From stdpp Require Import gmap strings list.

Local Open Scope N_scope.

(** ** Python strings *)

Abbreviation str := (list N).

(** The code points of an ASCII literal of the source. *)
Definition lit (s : string) : str :=
  N_of_ascii <$> list_ascii_of_string s.

(** The characters of a Python [str]: every code point up to U+10FFFF,
    surrogates included. *)
Definition is_char (c : N) : bool := c <? 0x110000.

Definition is_surrogate (c : N) : bool := (0xD800 <=? c) && (c <=? 0xDFFF).

(** A Unicode scalar value: a character that is not a surrogate. *)
Definition is_scalar (c : N) : bool := is_char c && negb (is_surrogate c).

(** [s.startswith(p)] *)
Fixpoint startswith (p s : str) : bool :=
  match p, s with
  | [], _ => true
  | _ :: _, [] => false
  | a :: p', b :: s' => (a =? b) && startswith p' s'
  end.

(** [p in s] on strings: [p] occurs in [s] as a contiguous run. *)
Fixpoint contains (p s : str) : bool :=
  startswith p s ||
  match s with
  | [] => false
  | _ :: s' => contains p s'
  end.

(** [str.isspace] on one character (CPython's [_PyUnicode_IsWhitespace]). *)
Definition isspace (c : N) : bool :=
  ((0x09 <=? c) && (c <=? 0x0D)) || ((0x1C <=? c) && (c <=? 0x20)) ||
  (c =? 0x85) || (c =? 0xA0) || (c =? 0x1680) ||
  ((0x2000 <=? c) && (c <=? 0x200A)) ||
  (c =? 0x2028) || (c =? 0x2029) || (c =? 0x202F) || (c =? 0x205F) ||
  (c =? 0x3000).

(** [s.split()] with no argument: the maximal runs of non-whitespace
    characters, in order.  [cur] is the run being read, reversed. *)
Fixpoint split_from (cur : str) (s : str) : list str :=
  match s with
  | [] => match cur with [] => [] | _ => [rev cur] end
  | c :: s' =>
      if isspace c
      then match cur with
           | [] => split_from [] s'
           | _ => rev cur :: split_from [] s'
           end
      else split_from (c :: cur) s'
  end.

Definition split (s : str) : list str := split_from [] s.

(** ** Exceptions *)

Inductive exn :=
| IndexError
| ValueError
| UnboundLocalError
| UnicodeEncodeError
| UnicodeDecodeError
| UnicodeError
| FileNotFoundError
| OSError
| RDKitError.

Inductive result (A : Type) :=
| Ok (a : A)
| Raise (e : exn).
Arguments Ok {A} a.
Arguments Raise {A} e.

Global Instance result_ret : MRet result := @Ok.
Global Instance result_bind : MBind result := λ A B f m,
  match m with
  | Ok a => f a
  | Raise e => Raise e
  end.
Global Instance result_fmap : FMap result := λ A B f m,
  match m with
  | Ok a => Ok (f a)
  | Raise e => Raise e
  end.

(** [l[i]] for a constant index [i >= 0]. *)
Definition item {A} (l : list A) (i : nat) : result A :=
  match l !! i with
  | Some x => Ok x
  | None => Raise IndexError
  end.

(** ** The utf-16 codec

    Bytes are numbers below 256.  The platform is little-endian, so
    [str.encode("utf-16")] writes the byte order mark FF FE and then
    little-endian code units. *)

Definition unit_le (w : N) : list N := [N.land w 0xFF; N.shiftr w 8].

Definition encode_char (c : N) : result (list N) :=
  if negb (is_char c) then Raise UnicodeEncodeError
  else if is_surrogate c then Raise UnicodeEncodeError
  else if c <? 0x10000 then Ok (unit_le c)
  else
    let v := c - 0x10000 in
    Ok (unit_le (0xD800 + N.shiftr v 10) ++ unit_le (0xDC00 + N.land v 0x3FF)).

Fixpoint encode_units (s : str) : result (list N) :=
  match s with
  | [] => Ok []
  | c :: s' =>
      b ← encode_char c;
      bs ← encode_units s';
      Ok (b ++ bs)
  end.

(** [s.encode("utf-16")] *)
Definition encode_utf16 (s : str) : result (list N) :=
  bs ← encode_units s;
  Ok (0xFF :: 0xFE :: bs).

Inductive byteorder := LittleEndian | BigEndian.

Definition unit_of (o : byteorder) (b0 b1 : N) : N :=
  match o with
  | LittleEndian => N.lor b0 (N.shiftl b1 8)
  | BigEndian => N.lor b1 (N.shiftl b0 8)
  end.

Definition is_high (w : N) : bool := (0xD800 <=? w) && (w <=? 0xDBFF).
Definition is_low (w : N) : bool := (0xDC00 <=? w) && (w <=? 0xDFFF).

(** The strict decoding of code units: a high surrogate must be followed by
    a low one, a lone low surrogate and a truncated unit are errors. *)
Fixpoint decode_units (o : byteorder) (bs : list N) : result str :=
  match bs with
  | [] => Ok []
  | [_] => Raise UnicodeDecodeError
  | b0 :: b1 :: r =>
      let w := unit_of o b0 b1 in
      if is_high w then
        match r with
        | b2 :: b3 :: r' =>
            let w' := unit_of o b2 b3 in
            if is_low w' then
              s ← decode_units o r';
              Ok (0x10000 + N.lor (N.shiftl (N.land w 0x3FF) 10) (N.land w' 0x3FF) :: s)
            else Raise UnicodeDecodeError
        | _ => Raise UnicodeDecodeError
        end
      else if is_low w then Raise UnicodeDecodeError
      else
        s ← decode_units o r;
        Ok (w :: s)
  end.

(** [b.decode("utf-16")]: a byte order mark selects the byte order and is
    dropped; without one the native order is used. *)
Definition decode_utf16 (bs : list N) : result str :=
  match bs with
  | 0xFF :: 0xFE :: r => decode_units LittleEndian r
  | 0xFE :: 0xFF :: r => decode_units BigEndian r
  | _ => decode_units LittleEndian bs
  end.

(** The decoder behind [open(..., encoding="utf-16")]: as [decode_utf16],
    but a stream of two bytes or more that does not start with a byte
    order mark is refused.  [UnicodeError] here stands for the class: on
    such a stream CPython decodes the first units before it looks for the
    mark, and raises the subclass [UnicodeDecodeError] when these are
    ill-formed.  The caller catches either. *)
Definition decode_utf16_stream (bs : list N) : result str :=
  match bs with
  | [] => Ok []
  | 0xFF :: 0xFE :: r => decode_units LittleEndian r
  | 0xFE :: 0xFF :: r => decode_units BigEndian r
  | [_] => Raise UnicodeDecodeError
  | _ => Raise UnicodeError
  end.

(** Universal newlines of a text file opened for reading: [\r\n] and a lone
    [\r] are read as [\n]. *)
Fixpoint translate_newlines (s : str) : str :=
  match s with
  | [] => []
  | 13 :: s' =>
      match s' with
      | 10 :: _ => translate_newlines s'
      | _ => 10 :: translate_newlines s'
      end
  | c :: s' => c :: translate_newlines s'
  end.

(** [f.readlines()] on translated text: each line keeps its [\n]; [cur] is
    the line being read, reversed. *)
Fixpoint lines_from (cur : str) (s : str) : list str :=
  match s with
  | [] => match cur with [] => [] | _ => [rev cur] end
  | c :: s' =>
      if c =? 10 then rev (c :: cur) :: lines_from [] s'
      else lines_from (c :: cur) s'
  end.

Definition readlines (s : str) : list str := lines_from [] (translate_newlines s).

(** ** The report parser: [orca_reader], lines 80-148 *)

(** The local variables of [orca_reader] that live across iterations of
    its loop.  The four candidates are unbound ([None]) until an orbital
    row assigns them. *)
Record state := State {
  props : gmap (list N) (list N);
  parse : bool;
  orbitals_start : bool;
  lumo_Eh : option str;
  lumo_eV : option str;
  homo_Eh : option str;
  homo_eV : option str
}.

Definition set_parse (b : bool) (st : state) : state :=
  State (props st) b (orbitals_start st)
        (lumo_Eh st) (lumo_eV st) (homo_Eh st) (homo_eV st).

Definition set_orbitals_start (b : bool) (st : state) : state :=
  State (props st) (parse st) b
        (lumo_Eh st) (lumo_eV st) (homo_Eh st) (homo_eV st).

Definition set_lumo (e v : str) (st : state) : state :=
  State (props st) (parse st) (orbitals_start st)
        (Some e) (Some v) (homo_Eh st) (homo_eV st).

Definition set_homo (e v : str) (st : state) : state :=
  State (props st) (parse st) (orbitals_start st)
        (lumo_Eh st) (lumo_eV st) (Some e) (Some v).

(** [props[key] = value] *)
Definition assign (key : string) (value : str) (st : state) : state :=
  State (<[lit key := value]> (props st)) (parse st) (orbitals_start st)
        (lumo_Eh st) (lumo_eV st) (homo_Eh st) (homo_eV st).

(** Reading a local variable that may be unbound. *)
Definition local (v : option str) : result str :=
  match v with
  | Some x => Ok x
  | None => Raise UnboundLocalError
  end.

(** The search phrase as the source writes it:
    ["...".encode("utf-16").decode("utf-16")]. *)
Definition phrase (p : string) : result str :=
  encode_utf16 (lit p) ≫= decode_utf16.

(** [A, B, C = tokens[4:7]] *)
Definition unpack3 (l : list str) : result (str * str * str) :=
  match l with
  | [a; b; c] => Ok (a, b, c)
  | _ => Raise ValueError
  end.

Section Reader.

(** [float_gt0 tok] is the outcome of [float(tok) > 0]: [None] when [float]
    raises [ValueError]. *)
Variable float_gt0 : str → option bool.

Definition occupied (tok : str) : result bool :=
  match float_gt0 tok with
  | Some b => Ok b
  | None => Raise ValueError
  end.

(** Lines 94-110: one row of the orbital table. *)
Definition orbital_row (st : state) (line : str) : result state :=
  let splitted := split line in
  occ ← item splitted 1;
  pos ← occupied occ;
  st ← (if (pos : bool) then
          e ← item splitted 2;
          v ← item splitted 3;
          Ok (set_homo e v (set_lumo e v st))
        else
          e ← item splitted 2;
          v ← item splitted 3;
          Ok (set_orbitals_start false (set_parse false (set_lumo e v st))));
  le ← local (lumo_Eh st);
  lv ← local (lumo_eV st);
  he ← local (homo_Eh st);
  hv ← local (homo_eV st);
  Ok (assign "HOMO (eV)" hv (assign "HOMO (Eh)" he
       (assign "LUMO (eV)" lv (assign "LUMO (Eh)" le st)))).

(** [if parse & (phrase in line): props[key] = line.split()[i]] *)
Definition extract (p key : string) (i : nat) (st : state) (line : str)
  : result state :=
  q ← phrase p;
  if parse st && contains q line then
    tok ← item (split line) i;
    Ok (assign key tok st)
  else Ok st.

(** [if phrase in line: parse = True] *)
Definition open_section (p : string) (st : state) (line : str) : result state :=
  q ← phrase p;
  Ok (if contains q line then set_parse true st else st).

(** The body of the loop, lines 85-147, on one line of the report. *)
Definition step (st : state) (line : str) : result state :=
  q ← phrase "ORBITAL ENERGIES";
  if contains q line then Ok (set_parse true st) else
  q ← phrase "E(Eh)";
  if contains q line then Ok (set_orbitals_start true st) else
  st ← (if parse st && orbitals_start st then orbital_row st line else Ok st);
  st ← open_section "DIPOLE MOMENT" st line;
  st ← extract "Magnitude (Debye)" "Dipole Moment" 3 st line;
  st ← (q ← phrase "Isotropic polarizability";
        if parse st && contains q line then
          tok ← item (split line) 3;
          Ok (set_parse false (assign "polarizability" tok st))
        else Ok st);
  st ← open_section "INNER ENERGY" st line;
  st ← extract "Total thermal energy" "U" 3 st line;
  st ← extract "Total Enthalpy" "H" 3 st line;
  st ← extract "Final entropy term" "S" 4 st line;
  st ← extract "Final Gibbs" "G" 5 st line;
  q ← phrase "Rotational constants in cm-1:";
  if parse st && contains q line then
    '(a, b, c) ← unpack3 (take 3 (drop 4 (split line)));
    Ok (assign "C" c (assign "B" b (assign "A" a st)))
  else Ok st.

(** [for line in output: ...] *)
Fixpoint scan (st : state) (output : list str) : result state :=
  match output with
  | [] => Ok st
  | line :: rest => st' ← step st line; scan st' rest
  end.

(** Lines 80-83: the state on entry to the loop. *)
Definition initial (smiles : str) : state :=
  State {[lit "smiles" := smiles]} false false None None None None.

(** Lines 80-148 on the lines of the report. *)
Definition read_props (smiles : str) (output : list str)
  : result (gmap (list N) (list N)) :=
  props <$> scan (initial smiles) output.

(** Lines 77-78 on the bytes of the report file. *)
Definition read_report (content : list N) : result (list str) :=
  readlines <$> decode_utf16_stream content.

End Reader.

(** ** The built-in [float] on ASCII tokens

    [float] reads [[sign] (number [exponent] | inf | infinity | nan)],
    where the digits of a number may be grouped by single underscores.
    Only the outcome of [float(tok) > 0] matters to the reader, and it is
    exact: the literal is positive when it has no minus sign and its value
    does not round to zero, that is, exceeds [2^-1075].  CPython also
    accepts the decimal digits of other scripts; on such tokens this
    instance raises, which is why the reader is stated over any
    [float_gt0]. *)

Definition isdigit (c : N) : bool := (48 <=? c) && (c <=? 57).

(** After a digit: the digits that follow, each preceded by at most one
    underscore. *)
Fixpoint digitpart_tail (s : str) : list N * str :=
  match s with
  | [] => ([], [])
  | c :: s' =>
      if isdigit c then
        let '(ds, r) := digitpart_tail s' in (c - 48 :: ds, r)
      else if c =? 95 then
        match s' with
        | d :: s'' =>
            if isdigit d then
              let '(ds, r) := digitpart_tail s'' in (d - 48 :: ds, r)
            else ([], s)
        | [] => ([], s)
        end
      else ([], s)
  end.

Definition digitpart (s : str) : option (list N * str) :=
  match s with
  | c :: s' =>
      if isdigit c then
        let '(ds, r) := digitpart_tail s' in Some (c - 48 :: ds, r)
      else None
  | [] => None
  end.

Definition sign_of (s : str) : bool * str :=
  match s with
  | 43 :: r => (false, r)
  | 45 :: r => (true, r)
  | _ => (false, s)
  end.

Definition lower (c : N) : N :=
  if (65 <=? c) && (c <=? 90) then c + 32 else c.

Definition digits_value (ds : list N) : Z :=
  fold_left (λ acc d, (10 * acc + Z.of_N d)%Z) ds 0%Z.

(** [exponent]: the value of an optional [e[sign]digits] that ends the
    token. *)
Definition exponent (s : str) : option Z :=
  match s with
  | [] => Some 0%Z
  | c :: r =>
      if (c =? 101) || (c =? 69) then
        let '(neg, r) := sign_of r in
        match digitpart r with
        | Some (ds, []) =>
            Some (if (neg : bool) then (- digits_value ds)%Z else digits_value ds)
        | _ => None
        end
      else None
  end.

(** [number [exponent]]: the digits before and after the point, and the
    exponent. *)
Definition floatnumber (s : str) : option (list N * list N * Z) :=
  match digitpart s with
  | Some (ip, 46 :: r) =>
      match digitpart r with
      | Some (fp, r') => e ← exponent r'; Some (ip, fp, e)
      | None => e ← exponent r; Some (ip, [], e)
      end
  | Some (ip, r) => e ← exponent r; Some (ip, [], e)
  | None =>
      match s with
      | 46 :: r =>
          '(fp, r') ← digitpart r;
          e ← exponent r';
          Some ([], fp, e)
      | _ => None
      end
  end.

(** A decimal [m * 10^e] with [m >= 0] rounds to a double above zero. *)
Definition rounds_above_zero (m e : Z) : bool :=
  if (0 <=? e)%Z then (0 <? m)%Z
  else (10 ^ (- e) <? m * 2 ^ 1075)%Z.

Definition py_float_gt0 (tok : str) : option bool :=
  let '(neg, r) := sign_of tok in
  let word := lower <$> r in
  if bool_decide (word = lit "inf") || bool_decide (word = lit "infinity")
  then Some (negb neg)
  else if bool_decide (word = lit "nan") then Some false
  else
    '(ip, fp, e) ← floatnumber r;
    Some (negb neg &&
          rounds_above_zero (digits_value (ip ++ fp)) (e - Z.of_nat (length fp))).

(** ** The reader without the round trip

    The same loop with every search phrase taken as the literal itself,
    which is how the specification reads the encoding step: a no-op. *)

Section LiteralReader.

Variable float_gt0 : str → option bool.

Definition extract_literal (p key : string) (i : nat) (st : state) (line : str)
  : result state :=
  if parse st && contains (lit p) line then
    tok ← item (split line) i;
    Ok (assign key tok st)
  else Ok st.

Definition open_section_literal (p : string) (st : state) (line : str) : state :=
  if contains (lit p) line then set_parse true st else st.

Definition step_literal (st : state) (line : str) : result state :=
  if contains (lit "ORBITAL ENERGIES") line then Ok (set_parse true st) else
  if contains (lit "E(Eh)") line then Ok (set_orbitals_start true st) else
  st ← (if parse st && orbitals_start st
        then orbital_row float_gt0 st line else Ok st);
  let st := open_section_literal "DIPOLE MOMENT" st line in
  st ← extract_literal "Magnitude (Debye)" "Dipole Moment" 3 st line;
  st ← (if parse st && contains (lit "Isotropic polarizability") line then
          tok ← item (split line) 3;
          Ok (set_parse false (assign "polarizability" tok st))
        else Ok st);
  let st := open_section_literal "INNER ENERGY" st line in
  st ← extract_literal "Total thermal energy" "U" 3 st line;
  st ← extract_literal "Total Enthalpy" "H" 3 st line;
  st ← extract_literal "Final entropy term" "S" 4 st line;
  st ← extract_literal "Final Gibbs" "G" 5 st line;
  if parse st && contains (lit "Rotational constants in cm-1:") line then
    '(a, b, c) ← unpack3 (take 3 (drop 4 (split line)));
    Ok (assign "C" c (assign "B" b (assign "A" a st)))
  else Ok st.

Fixpoint scan_literal (st : state) (output : list str) : result state :=
  match output with
  | [] => Ok st
  | line :: rest => st' ← step_literal st line; scan_literal st' rest
  end.

Definition read_props_literal (smiles : str) (output : list str)
  : result (gmap (list N) (list N)) :=
  props <$> scan_literal (initial smiles) output.

End LiteralReader.

(** ** Vocabulary of the report *)

(** The eleven phrases the loop searches for. *)
Definition triggers : list string :=
  [ "ORBITAL ENERGIES"; "E(Eh)"; "DIPOLE MOMENT"; "Magnitude (Debye)";
    "Isotropic polarizability"; "INNER ENERGY"; "Total thermal energy";
    "Total Enthalpy"; "Final entropy term"; "Final Gibbs";
    "Rotational constants in cm-1:" ]%string.

(** The line contains the phrase. *)
Definition hit (p : string) (line : str) : bool := contains (lit p) line.

(** The line contains none of the phrases. *)
Definition quiet (line : str) : bool :=
  forallb (λ p, negb (hit p line)) triggers.

(** The line contains the phrase [p] and no other. *)
Definition only (p : string) (line : str) : bool :=
  forallb (λ q, eqb (hit q line) (bool_decide (q = p))) triggers.

(** [line.split()[i]], for a line known to be long enough. *)
Definition tok (line : str) (i : nat) : str := default [] (split line !! i).

(** The keys a Property Mapping may hold. *)
Definition vocabulary : gset (list N) :=
  list_to_set (lit <$>
    [ "smiles"; "HOMO (Eh)"; "HOMO (eV)"; "LUMO (Eh)"; "LUMO (eV)";
      "Dipole Moment"; "polarizability"; "U"; "H"; "S"; "G";
      "A"; "B"; "C" ]%string).

(** The eleven properties. *)
Definition properties : list string :=
  [ "HOMO (Eh)"; "LUMO (Eh)"; "Dipole Moment"; "polarizability";
    "U"; "H"; "S"; "G"; "A"; "B"; "C" ]%string.

(** ** Files, processes and logs *)

(** What the program does to the outside, in the order it does it. *)
Inductive event :=
| PrintLine (text : str)
| WriteFile (path text : str)
| Exec (argv : list str) (shell : bool) (stdout : option str)
| ReadFile (path : str)
| AppendFile (path text : str)
| ToCsv (path : str) (table : list (gmap (list N) (list N))).

(** What the outside answers, given what has happened so far:
    - [job_text]: the text lines 21-49 build for a SMILES from RDKit's
      answers and the fixed template, or the exception an RDKit call raises;
    - [launch]: whether [subprocess.run] could start the program;
    - [file_at]: the bytes of the file found at a path when it is opened
      for reading, [None] when there is no such file. *)
Record world := World {
  job_text : list event → str → result str;
  launch : list event → list str → result ();
  file_at : list event → str → option (list N)
}.

(** A computation with effects: from the events so far to an outcome and
    the events after it.  An exception keeps the events already done. *)
Definition M (A : Type) : Type := list event → result A * list event.

Global Instance M_ret : MRet M := λ A a tr, (Ok a, tr).
Global Instance M_bind : MBind M := λ A B f m tr,
  match m tr with
  | (Ok a, tr') => f a tr'
  | (Raise e, tr') => (Raise e, tr')
  end.

Definition emit (e : event) : M () := λ tr, (Ok (), tr ++ [e]).

(** [try: body / except: handler] with a bare [except]. *)
Definition try_except {A} (body handler : M A) : M A := λ tr,
  match body tr with
  | (Ok a, tr') => (Ok a, tr')
  | (Raise _, tr') => handler tr'
  end.

(** [f"{nb}"] *)
Definition fmt (nb : Z) : str := lit (NilZero.string_of_int (Z.to_int nb)).

Definition ORCA_EXECUTABLE : str := lit "orca".

(** [f"{nb} {smiles}\n"] *)
Definition log_line (nb : Z) (smiles : str) : str :=
  fmt nb ++ lit " " ++ smiles ++ [10].

(** The Result Table: a row maps the columns it fills to their values. *)
Abbreviation table := (list (gmap (list N) (list N))).

(** [pd.DataFrame(dat, index=[0])]: one row; it has no column when [dat] is
    [None]. *)
Definition DataFrame (dat : option (gmap (list N) (list N))) : table :=
  [default ∅ dat].

(** [outdata.append(other, ignore_index=True)] *)
Definition append (outdata other : table) : table := outdata ++ other.

(** [enumerate(molecules)] *)
Definition enumerate {A} (l : list A) : list (Z * A) :=
  imap (λ i x, (Z.of_nat i, x)) l.

Section Program.

Variable float_gt0 : str → option bool.
Variable w : world.

(** Lines 12-52.  The text is RDKit's and the template's; the file is named
    after [nb]. *)
Definition orca_generator (smiles : str) (nb : Z) : M () := λ tr,
  match job_text w tr smiles with
  | Ok file_output => emit (WriteFile (fmt nb ++ lit ".inp") file_output) tr
  | Raise e => (Raise e, tr)
  end.

(** Lines 55-148. *)
Definition orca_reader (smiles : str) (nb : Z) : M (gmap (list N) (list N)) :=
  λ tr,
  let path := fmt nb ++ lit ".out" in
  match file_at w tr path with
  | None => (Raise FileNotFoundError, tr ++ [ReadFile path])
  | Some content =>
      (read_report content ≫= read_props float_gt0 smiles,
       tr ++ [ReadFile path])
  end.

(** [subprocess.run(args)]: the program [args[0]] is started directly, with
    [args] as its argument vector and the standard streams of the caller. *)
Definition subprocess_run (args : list str) : M () := λ tr,
  match launch w tr args with
  | Ok _ => emit (Exec args false None) tr
  | Raise e => (Raise e, tr)
  end.

(** Lines 151-187. *)
Definition orcanize (smiles : str) (nb : Z)
  : M (option (gmap (list N) (list N))) :=
  orca_generator smiles nb ;;
  subprocess_run [ORCA_EXECUTABLE; smiles ++ lit ".inp"; lit ">";
                  smiles ++ lit ".out"] ;;
  try_except
    (data ← orca_reader smiles nb;
     emit (AppendFile (lit "done.log") (log_line nb smiles)) ;;
     mret (Some data))
    (emit (AppendFile (lit "undone.log") (log_line nb smiles)) ;;
     mret None).

(** The loop of lines 206-211. *)
Fixpoint for_each (save : bool) (pairs : list (Z * str)) (outdata : table)
  : M table :=
  match pairs with
  | [] => mret outdata
  | (nb, smiles) :: rest =>
      emit (PrintLine (log_line nb smiles)) ;;
      dat ← orcanize smiles nb;
      let outdata := append outdata (DataFrame dat) in
      (if save then emit (ToCsv (lit "orkanized.csv") outdata) else mret ()) ;;
      for_each save rest outdata
  end.

(** Lines 190-212. *)
Definition orcanize_many (molecules : list str) (save : bool) : M table :=
  for_each save (enumerate molecules) [].

End Program.

(** ** Reading a trace *)

(** The texts appended to the file at [path], in order. *)
Definition appended (path : str) (tr : list event) : list str :=
  omap (λ e, match e with
             | AppendFile p text => if bool_decide (p = path) then Some text else None
             | _ => None
             end) tr.

(** The paths the program itself opened for writing. *)
Definition written (e : event) : option str :=
  match e with
  | WriteFile p _ | AppendFile p _ | ToCsv p _ => Some p
  | _ => None
  end.

(** The Job Handle of a log line: the text before its first space. *)
Fixpoint handle_of (line : str) : str :=
  match line with
  | [] => []
  | c :: r => if c =? 32 then [] else c :: handle_of r
  end.

Definition handles (path : str) (tr : list event) : list str :=
  handle_of <$> appended path tr.

(** ** Shapes of report lines *)

(** A row of the orbital table: no phrase, at least four tokens, and an
    occupation that [float] reads as positive ([occupied = true]) or as not
    positive. *)
Definition orbital_line (float_gt0 : str → option bool) (occupied : bool)
    (row : str) : Prop :=
  quiet row = true ∧ (4 ≤ length (split row))%nat ∧
  float_gt0 (tok row 1) = Some occupied.

(** The four orbital entries of a mapping. *)
Definition orbital_props (homo lumo : str) (m : gmap (list N) (list N))
  : gmap (list N) (list N) :=
  <[lit "HOMO (eV)" := tok homo 3]> (<[lit "HOMO (Eh)" := tok homo 2]>
    (<[lit "LUMO (eV)" := tok lumo 3]> (<[lit "LUMO (Eh)" := tok lumo 2]> m))).

(** A line of the thermochemistry part: no phrase, or one of its five
    phrases and enough tokens for the index the loop reads. *)
Definition thermo_line (l : str) : Prop :=
  quiet l = true ∨
  (only "Total thermal energy" l = true ∧ (4 ≤ length (split l))%nat) ∨
  (only "Total Enthalpy" l = true ∧ (4 ≤ length (split l))%nat) ∨
  (only "Final entropy term" l = true ∧ (5 ≤ length (split l))%nat) ∨
  (only "Final Gibbs" l = true ∧ (6 ≤ length (split l))%nat) ∨
  (only "Rotational constants in cm-1:" l = true ∧ (7 ≤ length (split l))%nat).

(** The phrase that guards the assignment of each property outside the
    orbital table. *)
Definition rules : list (string * string) :=
  [ ("Magnitude (Debye)", "Dipole Moment");
    ("Isotropic polarizability", "polarizability");
    ("Total thermal energy", "U"); ("Total Enthalpy", "H");
    ("Final entropy term", "S"); ("Final Gibbs", "G");
    ("Rotational constants in cm-1:", "A");
    ("Rotational constants in cm-1:", "B");
    ("Rotational constants in cm-1:", "C") ]%string.

Definition orbital_keys : list string :=
  [ "LUMO (Eh)"; "LUMO (eV)"; "HOMO (Eh)"; "HOMO (eV)" ]%string.

(** The key [smiles] is never reassigned and no key outside the
    vocabulary is ever assigned. *)
Definition well_keyed (smiles : str) (st : state) : Prop :=
  props st !! lit "smiles" = Some smiles ∧ dom (props st) ⊆ vocabulary.


(** ** Sample data *)

(** The lines of a text file, each with its newline, and the bytes of the
    file as a program that writes utf-16 with a byte order mark leaves
    it. *)
Definition file_lines (lines : list string) : list str :=
  (λ l, lit l ++ [10]) <$> lines.

Definition utf16_file (lines : list string) : list N :=
  match encode_utf16 (concat (file_lines lines)) with
  | Ok bytes => bytes
  | Raise _ => []
  end.

(** A world where RDKit accepts every identifier, the program starts, and
    the files named by [disk] exist throughout. *)
Definition sample_world (disk : list (string * list N)) : world :=
  World (λ _ smiles, Ok (lit "* xyz 0 1.0" ++ [10] ++ smiles))
        (λ _ _, Ok ())
        (λ _ path, snd <$> find (λ f, bool_decide (lit (fst f) = path)) disk).

(** The orbital table of the end-to-end scenario. *)
Definition sample_orbitals : list string :=
  [ "ORBITAL ENERGIES"; "  NO   OCC   E(Eh)   E(eV)";
    "... 2.0000 -0.123 -3.35"; "... 0.0000 0.045 1.22" ]%string.

(** What the reader makes of it for the identifier "CCO". *)
Definition sample_orbitals_props : gmap (list N) (list N) :=
  <[lit "HOMO (eV)" := lit "-3.35"]> (<[lit "HOMO (Eh)" := lit "-0.123"]>
    (<[lit "LUMO (eV)" := lit "1.22"]> (<[lit "LUMO (Eh)" := lit "0.045"]>
      {[lit "smiles" := lit "CCO"]}))).

(** The dipole part of the end-to-end scenario. *)
Definition sample_dipole : list string :=
  [ "DIPOLE MOMENT"; "-------------"; "Magnitude (Debye) : 1.85"; "";
    "Isotropic polarizability : 12.5" ]%string.

(** What the reader makes of it for the identifier "O". *)
Definition sample_dipole_props : gmap (list N) (list N) :=
  <[lit "polarizability" := lit "12.5"]>
    (<[lit "Dipole Moment" := lit "1.85"]> {[lit "smiles" := lit "O"]}).

(** A thermochemistry part in the layout of an ORCA report. *)
Definition sample_thermo : list string :=
  [ "INNER ENERGY"; "------------";
    "Total thermal energy                  -154.8 Eh";
    "Total Enthalpy                    ...   -154.7 Eh";
    "Rotational constants in cm-1:     1.16     0.31     0.27";
    "Final entropy term                ...      0.03 Eh     19.1 kcal/mol";
    "Final Gibbs free energy         ...   -154.9 Eh" ]%string.

(** ** The reading of the error contract

    "Either a mapping that contains all eleven properties, or an error." *)
Definition complete_or_raises (r : result (gmap (list N) (list N))) : Prop :=
  match r with
  | Ok m => ∀ k, k ∈ properties → is_Some (m !! lit k)
  | Raise _ => True
  end.

(** The three phrases that open a part of the report. *)
Definition no_opener (line : str) : Prop :=
  hit "ORBITAL ENERGIES" line = false ∧ hit "DIPOLE MOMENT" line = false ∧
  hit "INNER ENERGY" line = false.

(** The tables written to the file at [path], in order. *)
Definition persisted (path : str) (tr : list event) : list table :=
  omap (λ e, match e with
             | ToCsv p t => if bool_decide (p = path) then Some t else None
             | _ => None
             end) tr.

(** The argument vector of line 176. *)
Definition orca_argv (smiles : str) : list str :=
  [ORCA_EXECUTABLE; smiles ++ lit ".inp"; lit ">"; smiles ++ lit ".out"].

(** What one call of [orcanize] does to the outside when it gets as far as
    reading the report: [log] is the log it appends to. *)
Definition orcanize_events (smiles : str) (nb : Z) (text log : str)
  : list event :=
  [ WriteFile (fmt nb ++ lit ".inp") text;
    Exec (orca_argv smiles) false None;
    ReadFile (fmt nb ++ lit ".out");
    AppendFile log (log_line nb smiles) ].

(** ** Outcomes of a batch *)

(** The pairs whose molecule was parsed, given the outcome of each pair
    ([Some] mapping or [None]), and the pairs whose molecule was not. *)
Fixpoint succeeded {A} (pairs : list (Z * str)) (outcomes : list (option A))
  : list (Z * str) :=
  match pairs, outcomes with
  | p :: ps, Some _ :: os => p :: succeeded ps os
  | _ :: ps, None :: os => succeeded ps os
  | _, _ => []
  end.

Fixpoint failed {A} (pairs : list (Z * str)) (outcomes : list (option A))
  : list (Z * str) :=
  match pairs, outcomes with
  | _ :: ps, Some _ :: os => failed ps os
  | p :: ps, None :: os => p :: failed ps os
  | _, _ => []
  end.

(** The outcome [o] is what [orca_reader] made of the report of [nb] at
    some point of the run. *)
Definition outcome_of (fl : str → option bool) (w : world)
    (pair : Z * str) (o : option (gmap (list N) (list N))) : Prop :=
  ∃ tr, match o with
        | Some m => fst (orca_reader fl w pair.2 pair.1 tr) = Ok m
        | None => ∃ e, fst (orca_reader fl w pair.2 pair.1 tr) = Raise e
        end.

(** The rows of a table that hold a value. *)
Definition valued (t : table) : table := filter (λ row, row ≠ ∅) t.

(** A batch of three molecules whose second report is empty. *)
Definition sample_batch_world : world :=
  sample_world [ ("0.out", utf16_file sample_orbitals); ("1.out", []);
                 ("2.out", utf16_file sample_dipole) ].

Definition sample_batch : list str := [lit "CCO"; lit "CC"; lit "O"].

(** A batch whose second identifier is not a SMILES (its ring is left
    open), in a world where RDKit rejects it and no report exists. *)
Definition rejecting_world : world :=
  World (λ _ smiles, if bool_decide (smiles = lit "C1CC")
                     then Raise RDKitError else Ok (lit "* xyz 0 1.0"))
        (λ _ _, Ok ()) (λ _ _, None).

Definition rejected_batch : list str := [lit "CCO"; lit "C1CC"; lit "O"].

(** ** Reports read with the orbital table armed

    Any line with "E(Eh)" sets [orbitals_start], also outside the orbital
    part, and only a row that is not occupied resets it.  The second column
    header of an open-shell report (SPIN DOWN ORBITALS) is such a line. *)

Definition column_header : string := "  NO   OCC   E(Eh)   E(eV)".

(** The table of the scenario, with a column header read before its
    section header and a ruler under the section header. *)
Definition sample_armed_orbitals : list string :=
  [ column_header; "ORBITAL ENERGIES"; "----------------"; column_header;
    "... 2.0000 -0.123 -3.35"; "... 0.0000 0.045 1.22" ]%string.

(** The table of the scenario, followed by a second column header and the
    opening of the dipole part. *)
Definition sample_rearmed_orbitals : list string :=
  (sample_orbitals ++
   [ column_header; "DIPOLE MOMENT"; "-------------" ])%list%string.

(** The dipole and the thermochemistry parts, each after a column
    header. *)
Definition sample_armed_dipole : list string :=
  [ column_header; "DIPOLE MOMENT"; "Magnitude (Debye) : 1.85" ]%string.

Definition sample_armed_thermo : list string :=
  [ column_header; "INNER ENERGY";
    "Total thermal energy                  -154.8 Eh" ]%string.

(** The mapping returned binds [key] to [v]. *)
Definition binds (key : string) (v : str)
    (r : result (gmap (list N) (list N))) : Prop :=
  ∃ m, r = Ok m ∧ m !! lit key = Some v.

(** ** The filename stems

    "The file the external program is asked to read is never the file the
    Builder wrote, and the file the Parser reads is never named in the
    invocation", on the events of a call. *)
Definition stems_differ (tr : list event) : Prop :=
  ∀ argv shell stdout, Exec argv shell stdout ∈ tr →
    (∀ path text, WriteFile path text ∈ tr → path ∉ argv) ∧
    (∀ path, ReadFile path ∈ tr → path ∉ argv).

(** A decimal numeral: one digit or more, after an optional minus sign. *)
Definition numeral (s : str) : bool :=
  match s with
  | 45 :: d :: r => forallb isdigit (d :: r)
  | d :: r => forallb isdigit (d :: r)
  | [] => false
  end.

(** A world as [sample_world] whose RDKit, like the real one, reads no
    numeral as a SMILES. *)
Definition rdkit_world (disk : list (string * list N)) : world :=
  World (λ _ smiles, if numeral smiles then Raise RDKitError
                     else Ok (lit "* xyz 0 1.0" ++ [10] ++ smiles))
        (λ _ _, Ok ())
        (λ _ path, snd <$> find (λ f, bool_decide (lit (fst f) = path)) disk).

(** ** A batch with a failed molecule

    Three molecules; the report of the second is missing. *)
Definition failing_batch_world : world :=
  sample_world [ ("0.out", utf16_file sample_orbitals);
                 ("2.out", utf16_file sample_dipole) ].

(** "One row per successfully parsed molecule and no row for a failed
    one", and "persisted after each success": as many rows, and as many
    saved tables, as lines in done.log. *)
Definition rows_of_successes (t : table) (tr : list event) : Prop :=
  length t = length (appended (lit "done.log") tr).

Definition saved_on_success (tr : list event) : Prop :=
  length (persisted (lit "orkanized.csv") tr)
    = length (appended (lit "done.log") tr).

(** ** The Input Builder: [orca_generator], lines 26-49 *)

(** [s.split(sep)] for a separator of one character: the pieces between
    its occurrences, empty ones included.  [cur] is the piece being read,
    reversed. *)
Fixpoint split_on (sep : N) (cur : str) (s : str) : list str :=
  match s with
  | [] => [rev cur]
  | c :: s' =>
      if c =? sep then rev cur :: split_on sep [] s'
      else split_on sep (c :: cur) s'
  end.

(** [sep.join(pieces)] *)
Fixpoint join (sep : str) (pieces : list str) : str :=
  match pieces with
  | [] => []
  | [p] => p
  | p :: rest => p ++ sep ++ join sep rest
  end.

(** [l[2:-1]] *)
Definition slice_2_m1 {A} (l : list A) : list A :=
  take (length l - 1 - 2) (drop 2 l).

(** Line 48: [newline.join(output.split(newline)[2:-1])]. *)
Definition xyz_body (output : str) : str :=
  join [10] (slice_2_m1 (split_on 10 [] output)).

(** The lines of the template before the molecule, lines 33-46. *)
Definition directives : list string :=
  [ "! DFT B3LYP/G RIJCOSX def2-SVP Opt FREQ BOHRS xyzfile"; "";
    "    %scf"; "    MaxIter 500"; "    end"; "";
    "    %geom"; "    MaxIter 500"; "    end"; "";
    "    %elprop Dipole true"; "    Polar 1"; "    end"; "" ]%string.

(** Lines 33-49: the text of the job file.  [charge] is RDKit's formal
    charge, [spin] the text Python prints for the float
    [spin_multiplicity], [output] RDKit's XYZ block. *)
Definition file_output (charge : Z) (spin : str) (output : str) : str :=
  concat ((λ l, lit l ++ [10]) <$> directives) ++
  lit "    * xyz " ++ fmt charge ++ lit " " ++ spin ++ [10] ++
  lit "    " ++ xyz_body output ++ [10] ++
  lit "    *".

(** An XYZ block as RDKit writes it: the atom count, a comment line, one
    line per atom, every line ended by a newline. *)
Definition xyz_block (count comment : str) (atoms : list str) : str :=
  concat ((λ l, l ++ [10]) <$> (count :: comment :: atoms)).

Definition no_newline (s : str) : Prop := Forall (λ c, c ≠ 10) s.

(** Sample blocks: water as RDKit writes it, and the same block cut before
    its last newline. *)
Definition sample_block : str :=
  xyz_block (lit "3") [] [lit "O 0.0 0.0 0.1"; lit "H 0.0 0.7 -0.4"; lit "H 0.0 -0.7 -0.4"].

Definition sample_cut_block : list str :=
  [lit "3"; []; lit "O 0.0 0.0 0.1"; lit "H 0.0 0.7 -0.4"; lit "H 0.0 -0.7 -0.4"].

(** ** Text of a report *)

(** A line of text: characters that can be encoded, none of them a
    newline or a carriage return. *)
Definition plain_line (l : str) : Prop :=
  Forall (λ c, is_scalar c = true ∧ c ≠ 10 ∧ c ≠ 13) l.

(** The three line endings universal newlines recognise. *)
Definition line_ending (eol : str) : Prop :=
  eol = [10] ∨ eol = [13; 10] ∨ eol = [13].

(** The file starts with a utf-16 byte order mark. *)
Definition has_bom (content : list N) : bool :=
  match content with
  | b0 :: b1 :: _ =>
      ((b0 =? 0xFF) && (b1 =? 0xFE)) || ((b0 =? 0xFE) && (b1 =? 0xFF))
  | _ => false
  end.

(** The bytes of a report written as plain ASCII text, without a byte order
    mark. *)
Definition ascii_file (lines : list string) : list N :=
  concat (file_lines lines).

(** ** Lines the loop cannot read *)

(** The least number of tokens each phrase of a property needs. *)
Definition needs : list (string * nat) :=
  [ ("Magnitude (Debye)", 4); ("Isotropic polarizability", 4);
    ("Total thermal energy", 4); ("Total Enthalpy", 4);
    ("Final entropy term", 5); ("Final Gibbs", 6);
    ("Rotational constants in cm-1:", 7) ]%string%nat.

(** What a line with too few tokens raises: the unpacking of line 144
    raises [ValueError], the indexings [IndexError]. *)
Definition short_line_error (p : string) : exn :=
  if bool_decide (p = "Rotational constants in cm-1:"%string)
  then ValueError else IndexError.

(** A report with an orbital table that has no occupied row. *)
Definition sample_virtual_table : list string :=
  [ "ORBITAL ENERGIES"; "  NO   OCC   E(Eh)   E(eV)";
    "0 0.0000 0.045 1.22"; "1 0.0000 0.100 2.72" ]%string.

(** A report cut in the middle of a row of the orbital table. *)
Definition sample_cut_table : list string :=
  [ "ORBITAL ENERGIES"; "  NO   OCC   E(Eh)   E(eV)";
    "0 2.0000 -0.123 -3.35"; "1 2.0000 -0.1" ]%string.

(** A report whose dipole line lacks its value. *)
Definition sample_cut_dipole : list string :=
  [ "DIPOLE MOMENT"; "Magnitude (Debye) :" ]%string.

(** The state the reader is in after [sample_orbitals], for "CCO". *)
Definition sample_orbitals_state : state :=
  State sample_orbitals_props false false
        (Some (lit "0.045")) (Some (lit "1.22"))
        (Some (lit "-0.123")) (Some (lit "-3.35")).

(** A thermochemistry part interrupted by a polarizability line. *)
Definition sample_interrupted_thermo : list string :=
  [ "INNER ENERGY"; "Isotropic polarizability : 12.5";
    "Total thermal energy                  -154.8 Eh" ]%string.

(** ** Where the values come from *)

(** [v] is one of the pieces [line.split()] gives for a line of the
    report. *)
Definition token_of (output : list str) (v : str) : Prop :=
  ∃ line, line ∈ output ∧ v ∈ split line.

(** Every value the loop holds - in [props] under a key other than
    ["smiles"], or in one of the four candidates - satisfies [T]. *)
Definition values_in (T : str → Prop) (st : state) : Prop :=
  (∀ k v, props st !! k = Some v → k ≠ lit "smiles" → T v) ∧
  (∀ v, Some v ∈ [lumo_Eh st; lumo_eV st; homo_Eh st; homo_eV st] → T v).

(** ** Events of a batch *)

(** What a batch over [pairs] may do to the outside: each event belongs to
    one of the pairs, or is the table being saved. *)
Definition batch_event (save : bool) (pairs : list (Z * str)) (e : event)
  : Prop :=
  match e with
  | PrintLine text => ∃ p, p ∈ pairs ∧ text = log_line p.1 p.2
  | WriteFile path _ => ∃ p, p ∈ pairs ∧ path = fmt p.1 ++ lit ".inp"
  | Exec argv shell stdout =>
      ∃ p, p ∈ pairs ∧ argv = orca_argv p.2 ∧ shell = false ∧ stdout = None
  | ReadFile path => ∃ p, p ∈ pairs ∧ path = fmt p.1 ++ lit ".out"
  | AppendFile path text =>
      ∃ p, p ∈ pairs ∧ text = log_line p.1 p.2 ∧
           (path = lit "done.log" ∨ path = lit "undone.log")
  | ToCsv path _ => save = true ∧ path = lit "orkanized.csv"
  end.

(** The events of a batch that runs to its end, molecule after molecule.
    A run is the pair [(nb, smiles)], the text of its input file and what
    [orcanize] returned for it; [outdata] is the table so far. *)
Fixpoint batch_trace (save : bool) (outdata : table)
    (runs : list (Z * str * str * option (gmap (list N) (list N))))
  : list event :=
  match runs with
  | [] => []
  | (nb, smiles, text, dat) :: rest =>
      let outdata := append outdata (DataFrame dat) in
      PrintLine (log_line nb smiles) ::
      orcanize_events smiles nb text
        (lit (match dat with Some _ => "done.log" | None => "undone.log" end)) ++
      (if save then [ToCsv (lit "orkanized.csv") outdata] else []) ++
      batch_trace save outdata rest
  end.

(** ** The codec round trip *)

Lemma unit_of_unit_le (w : N) :
  N.lor (N.land w 0xFF) (N.shiftl (N.shiftr w 8) 8) = w.
Proof.
  change 0xFF with (N.ones 8).
  rewrite <- N.ldiff_ones_r, N.lor_comm. apply N.lor_ldiff_and.
Qed.

Lemma join_surrogates (v : N) :
  v < 0x100000 →
  N.lor (N.shiftl (N.land (0xD800 + N.shiftr v 10) 0x3FF) 10)
        (N.land (0xDC00 + N.land v 0x3FF) 0x3FF) = v.
Proof.
  intros Hv.
  assert (Hq : N.shiftr v 10 < 1024).
  { rewrite N.shiftr_div_pow2. apply N.Div0.div_lt_upper_bound. exact Hv. }
  change 0x3FF with (N.ones 10).
  assert (H1 : N.land (0xD800 + N.shiftr v 10) (N.ones 10) = N.shiftr v 10).
  { rewrite N.land_ones. change 0xD800 with (54 * 2 ^ 10).
    rewrite N.add_comm, N.Div0.mod_add. apply N.mod_small. exact Hq. }
  assert (H2 : N.land (0xDC00 + N.land v (N.ones 10)) (N.ones 10) = N.land v (N.ones 10)).
  { rewrite (N.land_ones (_ + _)). change 0xDC00 with (55 * 2 ^ 10).
    rewrite N.add_comm, N.Div0.mod_add. apply N.mod_small.
    rewrite N.land_ones. apply N.mod_lt. discriminate. }
  rewrite H1, H2, <- N.ldiff_ones_r. apply N.lor_ldiff_and.
Qed.

Lemma high_range (v : N) :
  v < 0x100000 → is_high (0xD800 + N.shiftr v 10) = true.
Proof.
  intros Hv.
  assert (Hq : N.shiftr v 10 < 1024).
  { rewrite N.shiftr_div_pow2. apply N.Div0.div_lt_upper_bound. exact Hv. }
  unfold is_high. apply andb_true_iff. split; apply N.leb_le; lia.
Qed.

Lemma low_range (v : N) : is_low (0xDC00 + N.land v 0x3FF) = true.
Proof.
  assert (Hr : N.land v 0x3FF < 1024).
  { change 0x3FF with (N.ones 10). rewrite N.land_ones. apply N.mod_lt. discriminate. }
  unfold is_low. apply andb_true_iff. split; apply N.leb_le; lia.
Qed.

Lemma decode_encode_units (s : str) :
  Forall (λ c, is_scalar c = true) s →
  ∃ bs, encode_units s = Ok bs ∧ decode_units LittleEndian bs = Ok s.
Proof.
  induction 1 as [|c s Hc _ (bs & Hbs & IH)].
  - exists []. split; reflexivity.
  - unfold is_scalar in Hc. apply andb_true_iff in Hc as [Hch Hsur].
    apply negb_true_iff in Hsur.
    cbn [encode_units]. unfold encode_char. rewrite Hch, Hsur. cbn [negb].
    destruct (c <? 0x10000) eqn:Hbmp.
    + exists (unit_le c ++ bs). cbn. rewrite Hbs. cbn. split; [reflexivity|].
      rewrite unit_of_unit_le.
      assert (is_high c = false) as ->.
      { unfold is_surrogate in Hsur. unfold is_high.
        apply andb_false_iff in Hsur as [H|H]; apply andb_false_iff.
        - left. exact H.
        - right. apply N.leb_gt in H. apply N.leb_gt. lia. }
      assert (is_low c = false) as ->.
      { unfold is_surrogate in Hsur. unfold is_low.
        apply andb_false_iff in Hsur as [H|H]; apply andb_false_iff.
        - left. apply N.leb_gt in H. apply N.leb_gt. lia.
        - right. exact H. }
      rewrite IH. reflexivity.
    + set (v := c - 0x10000).
      assert (Hv : v < 0x100000).
      { unfold is_char in Hch. apply N.ltb_lt in Hch. apply N.ltb_ge in Hbmp.
        unfold v. lia. }
      exists (unit_le (0xD800 + N.shiftr v 10) ++
              unit_le (0xDC00 + N.land v 0x3FF) ++ bs).
      cbn. rewrite Hbs. cbn. split; [reflexivity|].
      rewrite !unit_of_unit_le, high_range, low_range by exact Hv.
      rewrite IH. cbn. rewrite join_surrogates by exact Hv.
      f_equal. f_equal. apply N.ltb_ge in Hbmp. unfold v. lia.
Qed.

Lemma roundtrip_scalar (s : str) :
  Forall (λ c, is_scalar c = true) s →
  encode_utf16 s ≫= decode_utf16 = Ok s.
Proof.
  intros Hs. destruct (decode_encode_units s Hs) as (bs & Hbs & Hdec).
  unfold encode_utf16. rewrite Hbs. cbn. exact Hdec.
Qed.

(** ** The search phrases *)

(** Closed decidable goals, by evaluation. *)
Ltac closed := apply (bool_decide_unpack _); vm_compute; exact I.

Lemma triggers_scalar :
  Forall (λ p, Forall (λ c, is_scalar c = true) (lit p)) triggers.
Proof. repeat constructor. Qed.

Lemma phrase_trigger (p : string) : p ∈ triggers → phrase p = Ok (lit p).
Proof.
  intros Hp. unfold phrase. apply roundtrip_scalar.
  pose proof triggers_scalar as H. rewrite Forall_forall in H. apply H, Hp.
Qed.

Section ReaderFacts.

Variable fl : str → option bool.

Lemma step_is_literal st line : step fl st line = step_literal fl st line.
Proof.
  unfold step, extract, open_section.
  rewrite (phrase_trigger "ORBITAL ENERGIES"), (phrase_trigger "E(Eh)"),
    (phrase_trigger "DIPOLE MOMENT"), (phrase_trigger "Magnitude (Debye)"),
    (phrase_trigger "Isotropic polarizability"), (phrase_trigger "INNER ENERGY"),
    (phrase_trigger "Total thermal energy"), (phrase_trigger "Total Enthalpy"),
    (phrase_trigger "Final entropy term"), (phrase_trigger "Final Gibbs"),
    (phrase_trigger "Rotational constants in cm-1:")
    by closed.
  reflexivity.
Qed.

Lemma scan_is_literal output : ∀ st, scan fl st output = scan_literal fl st output.
Proof.
  induction output as [|line rest IH]; intros st; [reflexivity|].
  cbn [scan scan_literal]. rewrite step_is_literal.
  destruct (step_literal fl st line); cbn; [apply IH | reflexivity].
Qed.

End ReaderFacts.

(** ** One line of the report *)

Lemma quiet_hit line p :
  quiet line = true → p ∈ triggers → contains (lit p) line = false.
Proof.
  unfold quiet. rewrite forallb_forall. intros H Hp.
  apply negb_true_iff, H, list_elem_of_In, Hp.
Qed.

Lemma only_hit line p q :
  only p line = true → q ∈ triggers →
  contains (lit q) line = bool_decide (q = p).
Proof.
  unfold only. rewrite forallb_forall. intros H Hq.
  apply eqb_prop, H, list_elem_of_In, Hq.
Qed.

Lemma only_self line p :
  only p line = true → p ∈ triggers → contains (lit p) line = true.
Proof.
  intros H Hp. rewrite (only_hit line p p H Hp). apply bool_decide_eq_true_2.
  reflexivity.
Qed.

Lemma only_other line p q :
  only p line = true → q ∈ triggers → q ≠ p → contains (lit q) line = false.
Proof.
  intros H Hq Hne. rewrite (only_hit line p q H Hq).
  apply bool_decide_eq_false_2, Hne.
Qed.

Lemma item_tok line i :
  (i < length (split line))%nat → item (split line) i = Ok (tok line i).
Proof.
  intros Hi. unfold item, tok.
  destruct (lookup_lt_is_Some_2 (split line) i Hi) as [x ->]. reflexivity.
Qed.

Lemma bind_Ok {A B} (m : result A) (f : A → result B) (b : B) :
  m ≫= f = Ok b → ∃ a, m = Ok a ∧ f a = Ok b.
Proof. destruct m as [a|e]; [eauto | discriminate]. Qed.

(** The facts [contains (lit q) line = ...] a quiet or single-phrase line
    gives, for the eleven phrases at once. *)
Ltac hits H :=
  let go q :=
    lazymatch type of H with
    | quiet _ = true => rewrite (quiet_hit _ q H) by closed
    | only q _ = true => rewrite (only_self _ q H) by closed
    | only _ _ = true => rewrite (only_other _ _ q H) by closed
    end in
  go "ORBITAL ENERGIES"%string; go "E(Eh)"%string; go "DIPOLE MOMENT"%string;
  go "Magnitude (Debye)"%string; go "Isotropic polarizability"%string;
  go "INNER ENERGY"%string; go "Total thermal energy"%string;
  go "Total Enthalpy"%string; go "Final entropy term"%string;
  go "Final Gibbs"%string; go "Rotational constants in cm-1:"%string.

Ltac run_line :=
  repeat first
    [ rewrite andb_false_r
    | rewrite andb_true_r
    | progress cbn [mbind result_bind parse orbitals_start set_parse
                    set_orbitals_start assign andb] ].

Section LineFacts.

Variable fl : str → option bool.

Lemma step_header st line :
  contains (lit "ORBITAL ENERGIES") line = true →
  step fl st line = Ok (set_parse true st).
Proof. intros H. rewrite step_is_literal. unfold step_literal. rewrite H. reflexivity. Qed.

Lemma step_columns st line :
  contains (lit "ORBITAL ENERGIES") line = false →
  contains (lit "E(Eh)") line = true →
  step fl st line = Ok (set_orbitals_start true st).
Proof.
  intros H1 H2. rewrite step_is_literal. unfold step_literal. rewrite H1, H2.
  reflexivity.
Qed.

Lemma step_quiet st line :
  quiet line = true →
  step fl st line =
    if parse st && orbitals_start st then orbital_row fl st line else Ok st.
Proof.
  intros H. rewrite step_is_literal.
  unfold step_literal, extract_literal, open_section_literal. hits H.
  destruct (parse st && orbitals_start st).
  - destruct (orbital_row fl st line) as [st'|e]; [|reflexivity]. run_line.
    reflexivity.
  - run_line. reflexivity.
Qed.

End LineFacts.

Section SectionLines.

Variable fl : str → option bool.

Ltac single H Hs :=
  rewrite step_is_literal;
  unfold step_literal, extract_literal, open_section_literal; hits H;
  rewrite Hs; run_line.

Lemma step_opener p st line :
  p = "DIPOLE MOMENT"%string ∨ p = "INNER ENERGY"%string →
  only p line = true → orbitals_start st = false →
  step fl st line = Ok (set_parse true st).
Proof.
  intros [-> | ->] H Hs; single H Hs; destruct (parse st); reflexivity.
Qed.

Ltac taken H Hp Hs i :=
  single H Hs; rewrite ?Hp; run_line; rewrite (item_tok _ i) by lia;
  run_line; rewrite ?Hp; run_line; try reflexivity.

Lemma step_dipole st line :
  only "Magnitude (Debye)" line = true →
  parse st = true → orbitals_start st = false →
  (4 ≤ length (split line))%nat →
  step fl st line = Ok (assign "Dipole Moment" (tok line 3) st).
Proof. intros H Hp Hs Hn. taken H Hp Hs 3%nat. Qed.

Lemma step_polarizability st line :
  only "Isotropic polarizability" line = true →
  parse st = true → orbitals_start st = false →
  (4 ≤ length (split line))%nat →
  step fl st line =
    Ok (set_parse false (assign "polarizability" (tok line 3) st)).
Proof. intros H Hp Hs Hn. taken H Hp Hs 3%nat. Qed.

Lemma step_U st line :
  only "Total thermal energy" line = true →
  parse st = true → orbitals_start st = false →
  (4 ≤ length (split line))%nat →
  step fl st line = Ok (assign "U" (tok line 3) st).
Proof. intros H Hp Hs Hn. taken H Hp Hs 3%nat. Qed.

Lemma step_H st line :
  only "Total Enthalpy" line = true →
  parse st = true → orbitals_start st = false →
  (4 ≤ length (split line))%nat →
  step fl st line = Ok (assign "H" (tok line 3) st).
Proof. intros H Hp Hs Hn. taken H Hp Hs 3%nat. Qed.

Lemma step_S st line :
  only "Final entropy term" line = true →
  parse st = true → orbitals_start st = false →
  (5 ≤ length (split line))%nat →
  step fl st line = Ok (assign "S" (tok line 4) st).
Proof. intros H Hp Hs Hn. taken H Hp Hs 4%nat. Qed.

Lemma step_G st line :
  only "Final Gibbs" line = true →
  parse st = true → orbitals_start st = false →
  (6 ≤ length (split line))%nat →
  step fl st line = Ok (assign "G" (tok line 5) st).
Proof. intros H Hp Hs Hn. taken H Hp Hs 5%nat. Qed.

Lemma slice_4_7 (l : list str) :
  (7 ≤ length l)%nat →
  unpack3 (take 3 (drop 4 l)) =
    Ok (default [] (l !! 4%nat), default [] (l !! 5%nat), default [] (l !! 6%nat)).
Proof.
  intros Hn. do 7 (destruct l as [|? l]; [cbn in Hn; lia|]). reflexivity.
Qed.

Lemma step_rotational st line :
  only "Rotational constants in cm-1:" line = true →
  parse st = true → orbitals_start st = false →
  (7 ≤ length (split line))%nat →
  step fl st line =
    Ok (assign "C" (tok line 6) (assign "B" (tok line 5)
          (assign "A" (tok line 4) st))).
Proof.
  intros H Hp Hs Hn. single H Hs. rewrite Hp. run_line.
  rewrite slice_4_7 by lia. reflexivity.
Qed.

End SectionLines.

(** ** What a line may change *)

Lemma lit_inj (a b : string) : lit a = lit b → a = b.
Proof.
  unfold lit. revert b. induction a as [|x a IH]; intros [|y b] H;
    try discriminate; [reflexivity|].
  cbn in H. injection H as Hxy Hab. f_equal.
  - rewrite <- (ascii_N_embedding x), <- (ascii_N_embedding y). congruence.
  - apply IH, Hab.
Qed.

Section Preservation.

Variable fl : str → option bool.

Lemma orbital_row_shape st line st' :
  orbital_row fl st line = Ok st' →
  ∃ le lv he hv st1,
    props st1 = props st ∧
    st' = assign "HOMO (eV)" hv (assign "HOMO (Eh)" he
            (assign "LUMO (eV)" lv (assign "LUMO (Eh)" le st1))).
Proof.
  unfold orbital_row. intros H.
  apply bind_Ok in H as (occ & _ & H).
  apply bind_Ok in H as (pos & _ & H).
  apply bind_Ok in H as (st1 & H1 & H).
  apply bind_Ok in H as (le & _ & H).
  apply bind_Ok in H as (lv & _ & H).
  apply bind_Ok in H as (he & _ & H).
  apply bind_Ok in H as (hv & _ & H).
  injection H as <-. exists le, lv, he, hv, st1. split; [|reflexivity].
  destruct pos;
    apply bind_Ok in H1 as (e & _ & H1);
    apply bind_Ok in H1 as (v & _ & H1);
    injection H1 as <-; reflexivity.
Qed.

Section Step.

Variable Q : state → Prop.
Variable line : str.

Hypothesis Q_parse : ∀ st b, Q st → Q (set_parse b st).
Hypothesis Q_columns :
  contains (lit "E(Eh)") line = true →
  ∀ st, Q st → Q (set_orbitals_start true st).
Hypothesis Q_row :
  ∀ st st', Q st → parse st && orbitals_start st = true →
  orbital_row fl st line = Ok st' → Q st'.
Hypothesis Q_assign :
  ∀ p key, (p, key) ∈ rules → contains (lit p) line = true →
  ∀ st v, Q st → Q (assign key v st).

Lemma extract_preserves p key i st st' :
  (p, key) ∈ rules → Q st → extract_literal p key i st line = Ok st' → Q st'.
Proof.
  intros Hr HQ. unfold extract_literal.
  destruct (parse st) ; cbn [andb]; [|intros [= <-]; exact HQ].
  destruct (contains (lit p) line) eqn:Hp; [|intros [= <-]; exact HQ].
  intros H. apply bind_Ok in H as (v & _ & [= <-]).
  apply (Q_assign p key Hr Hp), HQ.
Qed.

Lemma open_section_preserves p st :
  Q st → Q (open_section_literal p st line).
Proof.
  intros HQ. unfold open_section_literal.
  destruct (contains (lit p) line); [apply Q_parse|]; exact HQ.
Qed.

Lemma step_preserves st st' : Q st → step fl st line = Ok st' → Q st'.
Proof.
  intros HQ. rewrite step_is_literal. unfold step_literal.
  destruct (contains (lit "ORBITAL ENERGIES") line);
    [intros [= <-]; apply Q_parse, HQ|].
  destruct (contains (lit "E(Eh)") line) eqn:Hc;
    [intros [= <-]; apply (Q_columns eq_refl), HQ|].
  intros H.
  apply bind_Ok in H as (st1 & H1 & H).
  assert (HQ1 : Q st1).
  { destruct (parse st && orbitals_start st) eqn:Hb.
    - apply (Q_row st st1 HQ Hb H1).
    - injection H1 as <-. exact HQ. }
  clear H1 HQ.
  apply (open_section_preserves "DIPOLE MOMENT") in HQ1.
  apply bind_Ok in H as (st2 & H2 & H).
  apply extract_preserves in H2; [|closed|exact HQ1]. clear HQ1.
  apply bind_Ok in H as (st3 & H3 & H).
  assert (HQ3 : Q st3).
  { destruct (parse st2); cbn [andb] in H3; [|injection H3 as <-; exact H2].
    destruct (contains (lit "Isotropic polarizability") line) eqn:Hp;
      [|injection H3 as <-; exact H2].
    apply bind_Ok in H3 as (v & _ & [= <-]).
    apply Q_parse, (Q_assign "Isotropic polarizability" "polarizability");
      [closed|exact Hp|exact H2]. }
  clear H3 H2.
  apply (open_section_preserves "INNER ENERGY") in HQ3.
  apply bind_Ok in H as (st4 & H4 & H).
  apply extract_preserves in H4; [|closed|exact HQ3]. clear HQ3.
  apply bind_Ok in H as (st5 & H5 & H).
  apply extract_preserves in H5; [|closed|exact H4]. clear H4.
  apply bind_Ok in H as (st6 & H6 & H).
  apply extract_preserves in H6; [|closed|exact H5]. clear H5.
  apply bind_Ok in H as (st7 & H7 & H).
  apply extract_preserves in H7; [|closed|exact H6]. clear H6.
  destruct (parse st7); cbn [andb] in H; [|injection H as <-; exact H7].
  destruct (contains (lit "Rotational constants in cm-1:") line) eqn:Hp;
    [|injection H as <-; exact H7].
  apply bind_Ok in H as ([[a b] c] & _ & [= <-]).
  apply (Q_assign "Rotational constants in cm-1:" "C"); [closed|exact Hp|].
  apply (Q_assign "Rotational constants in cm-1:" "B"); [closed|exact Hp|].
  apply (Q_assign "Rotational constants in cm-1:" "A"); [closed|exact Hp|].
  exact H7.
Qed.

End Step.

End Preservation.

Section Frames.

Variable fl : str → option bool.

Lemma scan_app st l1 l2 :
  scan fl st (l1 ++ l2) = scan fl st l1 ≫= λ st', scan fl st' l2.
Proof.
  revert st. induction l1 as [|x l1 IH]; intros st; [reflexivity|].
  cbn [app scan]. destruct (step fl st x) as [st'|e]; [|reflexivity].
  cbn. apply IH.
Qed.

Lemma lookup_assign_ne key k v st :
  key ≠ k → props (assign key v st) !! lit k = props st !! lit k.
Proof.
  intros Hne. cbn [assign props]. apply lookup_insert_ne.
  intros E. apply Hne, lit_inj, E.
Qed.

Ltac in_rules H :=
  unfold rules in H;
  repeat (apply elem_of_cons in H as [H|H]; [injection H as -> ->|]);
  [..|apply elem_of_nil in H; destruct H].

(** A property outside the orbital table keeps its value on a line that
    does not contain its phrase. *)
Lemma step_keeps_key p key line st st' :
  (p, key) ∈ rules → contains (lit p) line = false →
  step fl st line = Ok st' →
  props st' !! lit key = props st !! lit key.
Proof.
  intros Hr Hp Hstep.
  apply (step_preserves fl (λ s, props s !! lit key = props st !! lit key) line)
    with (st := st); try done.
  - intros s s' HQ _ Hrow.
    destruct (orbital_row_shape fl s line s' Hrow)
      as (le & lv & he & hv & s1 & Hs1 & ->).
    rewrite <- HQ, <- Hs1.
    in_rules Hr; rewrite !lookup_assign_ne by discriminate; reflexivity.
  - intros p' key' Hr' Hp' s v HQ. rewrite <- HQ.
    in_rules Hr; in_rules Hr'; first [congruence | apply lookup_assign_ne; discriminate].
Qed.

Lemma scan_keeps_key p key output : ∀ st st',
  (p, key) ∈ rules → Forall (λ l, contains (lit p) l = false) output →
  scan fl st output = Ok st' →
  props st' !! lit key = props st !! lit key.
Proof.
  induction output as [|line rest IH]; intros st st' Hr Hall H.
  - injection H as <-. reflexivity.
  - cbn [scan] in H. apply bind_Ok in H as (st1 & H1 & H).
    apply Forall_cons in Hall as [Hl Hrest].
    rewrite (IH st1 st' Hr Hrest H). apply (step_keeps_key p key line); done.
Qed.

(** While no column header arms it, the orbital table is not read. *)
Lemma step_keeps_orbitals k line st st' :
  k ∈ orbital_keys →
  orbitals_start st = false → contains (lit "E(Eh)") line = false →
  step fl st line = Ok st' →
  orbitals_start st' = false ∧ props st' !! lit k = props st !! lit k.
Proof.
  intros Hk Hs Hc Hstep.
  apply (step_preserves fl
           (λ s, orbitals_start s = false ∧ props s !! lit k = props st !! lit k)
           line) with (st := st); try done.
  - congruence.
  - intros s s' [Hs' _] Hb. rewrite Hs', andb_false_r in Hb. discriminate.
  - intros p' key' Hr' _ s v [Hs' HQ]. split; [exact Hs'|]. rewrite <- HQ.
    unfold orbital_keys in Hk.
    repeat (apply elem_of_cons in Hk as [->|Hk]);
      [..|apply elem_of_nil in Hk; destruct Hk];
      in_rules Hr'; apply lookup_assign_ne; discriminate.
Qed.

Lemma scan_keeps_orbitals k output : ∀ st st',
  k ∈ orbital_keys →
  orbitals_start st = false →
  Forall (λ l, contains (lit "E(Eh)") l = false) output →
  scan fl st output = Ok st' →
  orbitals_start st' = false ∧ props st' !! lit k = props st !! lit k.
Proof.
  induction output as [|line rest IH]; intros st st' Hk Hs Hall H.
  - injection H as <-. done.
  - cbn [scan] in H. apply bind_Ok in H as (st1 & H1 & H).
    apply Forall_cons in Hall as [Hl Hrest].
    destruct (step_keeps_orbitals k line st st1 Hk Hs Hl H1) as [Hs1 Hk1].
    destruct (IH st1 st' Hk Hs1 Hrest H) as [Hs' Hk'].
    split; [exact Hs'|]. congruence.
Qed.

Lemma well_keyed_assign smiles key v st :
  key ≠ "smiles"%string → lit key ∈ vocabulary →
  well_keyed smiles st → well_keyed smiles (assign key v st).
Proof.
  intros Hne Hin [Hs Hd]. split.
  - rewrite lookup_assign_ne by exact Hne. exact Hs.
  - cbn [assign props]. rewrite dom_insert_L. apply union_subseteq.
    split; [apply singleton_subseteq_l, Hin | exact Hd].
Qed.

Lemma step_well_keyed smiles line st st' :
  well_keyed smiles st → step fl st line = Ok st' → well_keyed smiles st'.
Proof.
  apply (step_preserves fl (well_keyed smiles) line); try done.
  - intros s s' HQ _ Hrow.
    destruct (orbital_row_shape fl s line s' Hrow)
      as (le & lv & he & hv & s1 & Hs1 & ->).
    assert (well_keyed smiles s1) by (unfold well_keyed; rewrite Hs1; exact HQ).
    repeat (apply well_keyed_assign; [discriminate|closed|]). assumption.
  - intros p key Hr _ s v HQ.
    in_rules Hr; (apply well_keyed_assign; [discriminate|closed|exact HQ]).
Qed.

Lemma scan_well_keyed smiles output : ∀ st st',
  well_keyed smiles st → scan fl st output = Ok st' → well_keyed smiles st'.
Proof.
  induction output as [|line rest IH]; intros st st' HQ H.
  - injection H as <-. exact HQ.
  - cbn [scan] in H. apply bind_Ok in H as (st1 & H1 & H).
    apply (IH st1 st'); [|exact H]. apply (step_well_keyed smiles line st); done.
Qed.

Lemma initial_well_keyed smiles : well_keyed smiles (initial smiles).
Proof.
  split; cbn [initial props].
  - apply lookup_singleton_eq.
  - rewrite dom_singleton_L. apply singleton_subseteq_l. closed.
Qed.

End Frames.

(** ** The orbital table *)

Section OrbitalTable.

Variable fl : str → option bool.

Lemma scan_quiet_idle lines st :
  Forall (λ l, quiet l = true) lines →
  parse st && orbitals_start st = false →
  scan fl st lines = Ok st.
Proof.
  intros Hq Hidle. induction Hq as [|l lines Hl _ IH]; [reflexivity|].
  cbn [scan]. rewrite (step_quiet fl st l Hl), Hidle. exact IH.
Qed.

Lemma orbital_row_occupied st row :
  orbital_line fl true row →
  orbital_row fl st row =
    Ok (State (orbital_props row row (props st)) (parse st) (orbitals_start st)
          (Some (tok row 2)) (Some (tok row 3))
          (Some (tok row 2)) (Some (tok row 3))).
Proof.
  intros (_ & Hn & Hocc). unfold orbital_row.
  rewrite (item_tok row 1) by lia. cbn [mbind result_bind].
  unfold occupied. rewrite Hocc. cbn [mbind result_bind].
  rewrite (item_tok row 2), (item_tok row 3) by lia. reflexivity.
Qed.

Lemma orbital_row_virtual st row he hv :
  orbital_line fl false row →
  homo_Eh st = Some he → homo_eV st = Some hv →
  orbital_row fl st row =
    Ok (State (<[lit "HOMO (eV)" := hv]> (<[lit "HOMO (Eh)" := he]>
                (<[lit "LUMO (eV)" := tok row 3]>
                   (<[lit "LUMO (Eh)" := tok row 2]> (props st)))))
          false false (Some (tok row 2)) (Some (tok row 3)) (Some he) (Some hv)).
Proof.
  intros (_ & Hn & Hocc) He Hv. unfold orbital_row.
  rewrite (item_tok row 1) by lia. cbn [mbind result_bind].
  unfold occupied. rewrite Hocc. cbn [mbind result_bind].
  rewrite (item_tok row 2), (item_tok row 3) by lia.
  cbn [mbind result_bind set_lumo set_parse set_orbitals_start lumo_Eh lumo_eV
       homo_Eh homo_eV local]. rewrite He, Hv.
  cbn [mbind result_bind local assign set_lumo set_parse set_orbitals_start
       props parse orbitals_start lumo_Eh lumo_eV homo_Eh homo_eV].
  unfold assign, set_orbitals_start, set_parse, set_lumo.
  cbn [props parse orbitals_start lumo_Eh lumo_eV homo_Eh homo_eV].
  rewrite He, Hv. reflexivity.
Qed.

Lemma orbital_props_again homo lumo homo' lumo' m :
  orbital_props homo lumo (orbital_props homo' lumo' m) = orbital_props homo lumo m.
Proof.
  unfold orbital_props. apply map_eq. intros k.
  rewrite !lookup_insert. repeat case_decide; reflexivity.
Qed.

(** The occupied rows: every one overwrites both candidates, so the last
    one is kept. *)
Lemma scan_occupied rows : ∀ last st,
  parse st = true → orbitals_start st = true →
  Forall (orbital_line fl true) (rows ++ [last]) →
  scan fl st (rows ++ [last]) =
    Ok (State (orbital_props last last (props st)) true true
          (Some (tok last 2)) (Some (tok last 3))
          (Some (tok last 2)) (Some (tok last 3))).
Proof.
  induction rows as [|row rows IH]; intros last st Hp Hs Hall.
  - apply Forall_cons in Hall as [Hrow _]. cbn [app scan].
    rewrite (step_quiet fl st last), Hp, Hs by apply Hrow. cbn [andb].
    rewrite (orbital_row_occupied st last Hrow), Hp, Hs. reflexivity.
  - cbn [app] in Hall. apply Forall_cons in Hall as [Hrow Hall]. cbn [app scan].
    rewrite (step_quiet fl st row), Hp, Hs by apply Hrow. cbn [andb].
    rewrite (orbital_row_occupied st row Hrow), Hp, Hs. cbn [mbind result_bind].
    rewrite (IH last) by done. cbn [props].
    rewrite orbital_props_again. reflexivity.
Qed.

(** The whole table: header, column header, occupied rows, first row that
    is not occupied.  The lines between the two headers are passed over
    when the table is not armed. *)
Lemma scan_table st hdr mid cols rows homo lumo :
  orbitals_start st = false ∨ mid = [] →
  contains (lit "ORBITAL ENERGIES") hdr = true →
  Forall (λ l, quiet l = true) mid →
  contains (lit "ORBITAL ENERGIES") cols = false →
  contains (lit "E(Eh)") cols = true →
  Forall (orbital_line fl true) (rows ++ [homo]) →
  orbital_line fl false lumo →
  scan fl st (hdr :: mid ++ cols :: rows ++ [homo; lumo]) =
    Ok (State (orbital_props homo lumo (props st)) false false
          (Some (tok lumo 2)) (Some (tok lumo 3))
          (Some (tok homo 2)) (Some (tok homo 3))).
Proof.
  intros Hs Hhdr Hmid Hc1 Hc2 Hrows Hlumo.
  cbn [scan]. rewrite (step_header fl st hdr Hhdr). cbn [mbind result_bind].
  assert (Hidle : scan fl (set_parse true st) mid = Ok (set_parse true st)).
  { destruct Hs as [Hs| ->]; [|reflexivity].
    apply scan_quiet_idle; [exact Hmid|]. cbn. rewrite Hs. reflexivity. }
  rewrite scan_app, Hidle.
  cbn [mbind result_bind scan]. rewrite (step_columns fl _ cols Hc1 Hc2).
  cbn [mbind result_bind].
  change (rows ++ [homo; lumo]) with (rows ++ [homo] ++ [lumo]).
  rewrite app_assoc, scan_app, (scan_occupied rows homo) by done.
  cbn [mbind result_bind scan].
  rewrite (step_quiet fl _ lumo) by apply Hlumo. cbn [parse orbitals_start andb].
  rewrite (orbital_row_virtual _ lumo (tok homo 2) (tok homo 3)) by done.
  cbn [mbind result_bind props set_parse set_orbitals_start].
  f_equal. f_equal. unfold orbital_props. apply map_eq. intros k.
  rewrite !lookup_insert. repeat case_decide; reflexivity.
Qed.

End OrbitalTable.

(** ** The reader on a file *)

Lemma orca_reader_lines fl w smiles nb tr content lines :
  file_at w tr (fmt nb ++ lit ".out") = Some content →
  read_report content = Ok lines →
  orca_reader fl w smiles nb tr =
    (read_props fl smiles lines, tr ++ [ReadFile (fmt nb ++ lit ".out")]).
Proof. intros Hf Hr. unfold orca_reader. rewrite Hf, Hr. reflexivity. Qed.




(** ** The dipole and the thermochemistry parts *)

Section Parts.

Variable fl : str → option bool.

Lemma step_thermo st line :
  thermo_line line → parse st = true → orbitals_start st = false →
  ∃ st', step fl st line = Ok st' ∧ parse st' = true ∧ orbitals_start st' = false.
Proof.
  intros Hl Hp Hs.
  destruct Hl as [Hq|[[Ho Hn]|[[Ho Hn]|[[Ho Hn]|[[Ho Hn]|[Ho Hn]]]]]].
  - exists st. rewrite (step_quiet fl st line Hq), Hp, Hs. done.
  - eexists. rewrite (step_U fl st line Ho Hp Hs Hn). done.
  - eexists. rewrite (step_H fl st line Ho Hp Hs Hn). done.
  - eexists. rewrite (step_S fl st line Ho Hp Hs Hn). done.
  - eexists. rewrite (step_G fl st line Ho Hp Hs Hn). done.
  - eexists. rewrite (step_rotational fl st line Ho Hp Hs Hn). done.
Qed.

Lemma scan_thermo body : ∀ st,
  Forall thermo_line body → parse st = true → orbitals_start st = false →
  ∃ st', scan fl st body = Ok st' ∧ parse st' = true ∧ orbitals_start st' = false.
Proof.
  induction body as [|line body IH]; intros st Hall Hp Hs.
  - exists st. done.
  - apply Forall_cons in Hall as [Hl Hall].
    destruct (step_thermo st line Hl Hp Hs) as (st1 & H1 & Hp1 & Hs1).
    destruct (IH st1 Hall Hp1 Hs1) as (st' & H' & Hp' & Hs').
    exists st'. cbn [scan]. rewrite H1. done.
Qed.

Lemma thermo_count line p n :
  thermo_line line → only p line = true →
  (p, n) ∈ [ ("Total thermal energy", 4); ("Total Enthalpy", 4);
             ("Final entropy term", 5); ("Final Gibbs", 6);
             ("Rotational constants in cm-1:", 7) ]%string%nat →
  (n ≤ length (split line))%nat.
Proof.
  intros Hl Ho Hin.
  assert (Hp : contains (lit p) line = true).
  { apply (only_self line p Ho).
    repeat (apply elem_of_cons in Hin as [[= -> ->]|Hin]; [closed|]).
    apply elem_of_nil in Hin. destruct Hin. }
  repeat (apply elem_of_cons in Hin as [[= -> ->]|Hin];
    [destruct Hl as [Hq|[[Ho' Hn]|[[Ho' Hn]|[[Ho' Hn]|[[Ho' Hn]|[Ho' Hn]]]]]];
     first [ exact Hn
           | rewrite (quiet_hit line _ Hq) in Hp by closed; discriminate
           | rewrite (only_other line _ _ Ho') in Hp by closed; discriminate ]|]).
  apply elem_of_nil in Hin. destruct Hin.
Qed.

End Parts.







(** ** Keys of the mapping *)

Lemma orca_reader_well_keyed
    (fl : str → option bool) (w : world) (smiles : str) (nb : Z)
    (tr : list event) (m : gmap (list N) (list N)) :
  fst (orca_reader fl w smiles nb tr) = Ok m →
  m !! lit "smiles" = Some smiles ∧ dom m ⊆ vocabulary.
Proof.
  unfold orca_reader. intros H.
  destruct (file_at w tr (fmt nb ++ lit ".out")) as [content|]; [|discriminate].
  cbn [fst] in H.
  apply bind_Ok in H as (lines & _ & H). unfold read_props in H.
  destruct (scan fl (initial smiles) lines) as [st|e] eqn:Hscan; [|discriminate].
  injection H as <-.
  apply (scan_well_keyed fl smiles lines (initial smiles) st);
    [apply initial_well_keyed | exact Hscan].
Qed.

(** C9: whenever [orca_reader] returns, the mapping binds "smiles" to the
    identifier it was given and every key of the mapping is one of the
    fourteen keys of the vocabulary. *)
Theorem orca_reader_keys
    (fl : str → option bool) (w : world) (smiles : str) (nb : Z)
    (tr tr' : list event) (m : gmap (list N) (list N)) :
  orca_reader fl w smiles nb tr = (Ok m, tr') →
  m !! lit "smiles" = Some smiles ∧ dom m ⊆ vocabulary.
Proof.
  intros H. apply (orca_reader_well_keyed fl w smiles nb tr). rewrite H. reflexivity.
Qed.

Lemma orca_reader_keys_scenario :
  sample_dipole_props !! lit "smiles" = Some (lit "O") ∧
  dom sample_dipole_props ⊆ vocabulary.
Proof.
  apply (orca_reader_keys py_float_gt0
           (sample_world [("3.out", utf16_file sample_dipole)])
           (lit "O") 3 [] [ReadFile (lit "3.out")]).
  vm_compute. reflexivity.
Defined.

(** ** Reports with missing parts *)

Section Missing.

Variable fl : str → option bool.

Lemma step_closed st line :
  parse st = false → no_opener line →
  ∃ st', step fl st line = Ok st' ∧ parse st' = false ∧ props st' = props st.
Proof.
  intros Hp (H1 & H2 & H3). unfold hit in H1, H2, H3.
  rewrite step_is_literal.
  unfold step_literal, extract_literal, open_section_literal.
  rewrite H1, H2, H3.
  destruct (contains (lit "E(Eh)") line);
    [eexists; split; [reflexivity|split; [exact Hp|reflexivity]]|].
  repeat (rewrite Hp; cbn [andb mbind result_bind]).
  exists st. done.
Qed.

Lemma scan_closed lines : ∀ st,
  parse st = false → Forall no_opener lines →
  ∃ st', scan fl st lines = Ok st' ∧ props st' = props st.
Proof.
  induction lines as [|line lines IH]; intros st Hp Hall.
  - exists st. done.
  - apply Forall_cons in Hall as [Hl Hall].
    destruct (step_closed st line Hp Hl) as (st1 & H1 & Hp1 & Hprops1).
    destruct (IH st1 Hp1 Hall) as (st' & H' & Hprops').
    exists st'. cbn [scan]. rewrite H1. cbn. split; [exact H'|congruence].
Qed.

End Missing.

(** C2, the counterexample: on an empty report [orca_reader] returns a
    mapping that holds none of the eleven properties. *)
Lemma orca_reader_incomplete_mapping :
  fst (orca_reader py_float_gt0 (sample_world [("0.out", [])]) (lit "CCO") 0 [])
    = Ok {[lit "smiles" := lit "CCO"]} ∧
  ¬ complete_or_raises
      (fst (orca_reader py_float_gt0 (sample_world [("0.out", [])]) (lit "CCO") 0 [])).
Proof.
  split; [vm_compute; reflexivity|].
  intros H.
  assert (E : fst (orca_reader py_float_gt0 (sample_world [("0.out", [])])
                     (lit "CCO") 0 []) = Ok {[lit "smiles" := lit "CCO"]})
    by (vm_compute; reflexivity).
  rewrite E in H. cbn [complete_or_raises] in H.
  destruct (H "U"%string ltac:(closed)) as [v Hv].
  vm_compute in Hv. discriminate Hv.
Qed.

(** C2, as amended: [orca_reader] returns a mapping or raises, and a phrase
    that is absent from the report does not make it raise.  A report none
    of whose lines contains a phrase that opens a part yields the mapping
    that holds "smiles" alone; in any mapping returned, a property whose
    phrase occurs in no line is absent, and so are the four orbital entries
    when no line contains "E(Eh)". *)
Theorem orca_reader_omits_missing
    (fl : str → option bool) (w : world) (tr : list event)
    (smiles : str) (nb : Z) (content : list N) (lines : list str) :
  file_at w tr (fmt nb ++ lit ".out") = Some content →
  read_report content = Ok lines →
  (Forall no_opener lines →
   orca_reader fl w smiles nb tr =
     (Ok {[lit "smiles" := smiles]}, tr ++ [ReadFile (fmt nb ++ lit ".out")])) ∧
  ∀ m, fst (orca_reader fl w smiles nb tr) = Ok m →
    (∀ p key, (p, key) ∈ rules → Forall (λ l, hit p l = false) lines →
       m !! lit key = None) ∧
    (Forall (λ l, hit "E(Eh)" l = false) lines →
       ∀ k, k ∈ orbital_keys → m !! lit k = None).
Proof.
  intros Hfile Hread.
  rewrite (orca_reader_lines fl w smiles nb tr content lines Hfile Hread).
  unfold read_props. split.
  - intros Hall.
    destruct (scan_closed fl lines (initial smiles) eq_refl Hall) as (st & -> & Hst).
    cbn. rewrite Hst. reflexivity.
  - cbn [fst]. intros m Hm.
    destruct (scan fl (initial smiles) lines) as [st|e] eqn:Hscan; [|discriminate].
    injection Hm as <-. split.
    + intros p key Hr Hno.
      rewrite (scan_keeps_key fl p key lines (initial smiles) st Hr Hno Hscan).
      cbn [initial props]. apply lookup_singleton_ne.
      intros E. apply lit_inj in E. subst key.
      unfold rules in Hr.
      repeat (apply elem_of_cons in Hr as [Hr|Hr]; [discriminate Hr|]).
      apply elem_of_nil in Hr. exact Hr.
    + intros Hno k Hk.
      destruct (scan_keeps_orbitals fl k lines (initial smiles) st Hk eq_refl Hno Hscan)
        as [_ ->].
      cbn [initial props]. apply lookup_singleton_ne.
      intros E. apply lit_inj in E. subst k.
      unfold orbital_keys in Hk.
      repeat (apply elem_of_cons in Hk as [Hk|Hk]; [discriminate Hk|]).
      apply elem_of_nil in Hk. exact Hk.
Qed.

Lemma orca_reader_omits_missing_scenario :
  orca_reader py_float_gt0 (sample_world [("5.out", utf16_file ["no results"]%string)])
    (lit "CCO") 5 [] = (Ok {[lit "smiles" := lit "CCO"]}, [ReadFile (lit "5.out")]).
Proof.
  apply (orca_reader_omits_missing py_float_gt0
           (sample_world [("5.out", utf16_file ["no results"]%string)]) []
           (lit "CCO") 5 (utf16_file ["no results"]%string)
           (file_lines ["no results"]%string)).
  - vm_compute. reflexivity.
  - vm_compute. reflexivity.
  - apply Forall_cons_2; [|apply Forall_nil_2].
    split; [|split]; vm_compute; reflexivity.
Defined.

(** ** The encoding round trip *)

(** C8, the counterexample: a string that holds a lone surrogate cannot be
    encoded, so the round trip does not give it back. *)
Lemma round_trip_lone_surrogate :
  is_char 0xD800 = true ∧
  encode_utf16 [0xD800] ≫= decode_utf16 = Raise UnicodeEncodeError ∧
  encode_utf16 [0xD800] ≫= decode_utf16 ≠ Ok [0xD800].
Proof.
  split; [reflexivity|]. split; [reflexivity|discriminate].
Qed.

(** C8, as amended: for every string [p] of Unicode scalar values,
    [p.encode("utf-16").decode("utf-16")] is [p]; each of the eleven search
    phrases is such a string, so searching a line for the phrase after the
    round trip is searching it for the literal, and [orca_reader] returns
    the same outcome with the round trip as without it, on the same lines
    of the same report. *)
Theorem round_trip_is_noop
    (p : str) (fl : str → option bool) (smiles : str) (output : list str) :
  Forall (λ c, is_scalar c = true) p →
  encode_utf16 p ≫= decode_utf16 = Ok p ∧
  (∀ q line, q ∈ triggers →
     (λ r, contains r line) <$> phrase q = Ok (contains (lit q) line)) ∧
  read_props fl smiles output = read_props_literal fl smiles output.
Proof.
  intros Hp. split; [exact (roundtrip_scalar p Hp)|]. split.
  - intros q line Hq. rewrite (phrase_trigger q Hq). reflexivity.
  - unfold read_props, read_props_literal. rewrite scan_is_literal. reflexivity.
Qed.

Lemma round_trip_is_noop_scenario :
  encode_utf16 (lit "ORBITAL ENERGIES") ≫= decode_utf16 = Ok (lit "ORBITAL ENERGIES") ∧
  read_props py_float_gt0 (lit "CCO") (file_lines sample_orbitals) =
    read_props_literal py_float_gt0 (lit "CCO") (file_lines sample_orbitals).
Proof.
  destruct (round_trip_is_noop (lit "ORBITAL ENERGIES") py_float_gt0 (lit "CCO")
              (file_lines sample_orbitals)) as (H1 & _ & H3).
  - repeat (apply Forall_cons_2; [vm_compute; reflexivity|]). apply Forall_nil_2.
  - split; [exact H1|exact H3].
Defined.

(** ** One molecule: [orcanize] *)

Section Orchestrator.

Variable fl : str → option bool.
Variable w : world.

Lemma orca_reader_trace smiles nb tr :
  snd (orca_reader fl w smiles nb tr) = tr ++ [ReadFile (fmt nb ++ lit ".out")].
Proof. unfold orca_reader. destruct (file_at w tr _); reflexivity. Qed.

Lemma orcanize_eq smiles nb tr :
  orcanize fl w smiles nb tr =
    match job_text w tr smiles with
    | Raise e => (Raise e, tr)
    | Ok text =>
        let tr1 := tr ++ [WriteFile (fmt nb ++ lit ".inp") text] in
        match launch w tr1 (orca_argv smiles) with
        | Raise e => (Raise e, tr1)
        | Ok _ =>
            let tr2 := tr1 ++ [Exec (orca_argv smiles) false None] in
            match orca_reader fl w smiles nb tr2 with
            | (Ok m, tr3) =>
                (Ok (Some m),
                 tr3 ++ [AppendFile (lit "done.log") (log_line nb smiles)])
            | (Raise _, tr3) =>
                (Ok None,
                 tr3 ++ [AppendFile (lit "undone.log") (log_line nb smiles)])
            end
        end
    end.
Proof.
  unfold orcanize, orca_generator, subprocess_run, try_except, emit, orca_argv.
  cbv [mbind M_bind mret M_ret].
  destruct (job_text w tr smiles) as [text|e]; [|reflexivity].
  destruct (launch w _ _) as [[]|e]; [|reflexivity].
  destruct (orca_reader fl w smiles nb _) as [[m|e] tr3]; reflexivity.
Qed.

(** The three ways a call can go: RDKit raises, the program cannot be
    started, or the report is read and one log gets its line. *)
Lemma orcanize_cases smiles nb tr :
  (∃ e, orcanize fl w smiles nb tr = (Raise e, tr)) ∨
  (∃ text e, orcanize fl w smiles nb tr =
               (Raise e, tr ++ [WriteFile (fmt nb ++ lit ".inp") text])) ∨
  (∃ text m,
     fst (orca_reader fl w smiles nb
            (tr ++ [WriteFile (fmt nb ++ lit ".inp") text;
                    Exec (orca_argv smiles) false None])) = Ok m ∧
     orcanize fl w smiles nb tr =
       (Ok (Some m), tr ++ orcanize_events smiles nb text (lit "done.log"))) ∨
  (∃ text e,
     fst (orca_reader fl w smiles nb
            (tr ++ [WriteFile (fmt nb ++ lit ".inp") text;
                    Exec (orca_argv smiles) false None])) = Raise e ∧
     orcanize fl w smiles nb tr =
       (Ok None, tr ++ orcanize_events smiles nb text (lit "undone.log"))).
Proof.
  rewrite orcanize_eq.
  destruct (job_text w tr smiles) as [text|e]; [|left; eauto].
  cbv zeta.
  destruct (launch w _ _) as [[]|e]; [|right; left; eauto].
  right. right.
  assert (Htr : (tr ++ [WriteFile (fmt nb ++ lit ".inp") text]) ++
                [Exec (orca_argv smiles) false None]
                = tr ++ [WriteFile (fmt nb ++ lit ".inp") text;
                         Exec (orca_argv smiles) false None])
    by (rewrite <- app_assoc; reflexivity).
  rewrite Htr.
  pose proof (orca_reader_trace smiles nb
                (tr ++ [WriteFile (fmt nb ++ lit ".inp") text;
                        Exec (orca_argv smiles) false None])) as Hr.
  destruct (orca_reader fl w smiles nb _) as [[m|e] tr3] eqn:Hrd;
    cbn [snd] in Hr; subst tr3.
  - left. exists text, m. rewrite Hrd. split; [reflexivity|].
    unfold orcanize_events. rewrite <- !app_assoc. reflexivity.
  - right. exists text, e. rewrite Hrd. split; [reflexivity|].
    unfold orcanize_events. rewrite <- !app_assoc. reflexivity.
Qed.

End Orchestrator.

(** A name that ends in [.out] is none of the names the program writes. *)
Lemma last_app_lit (s : str) (suffix : string) c :
  last (lit suffix) = Some c → last (s ++ lit suffix) = Some c.
Proof.
  intros H. rewrite last_app. rewrite H. reflexivity.
Qed.

Lemma out_not_inp (a b : str) : a ++ lit ".out" ≠ b ++ lit ".inp".
Proof.
  intros E. apply (f_equal last) in E.
  rewrite (last_app_lit a ".out" 116), (last_app_lit b ".inp" 112) in E
    by reflexivity.
  discriminate.
Qed.

Lemma out_not_written (smiles : str) (nb : Z) (text log : str) :
  log = lit "done.log" ∨ log = lit "undone.log" →
  ∀ e, e ∈ orcanize_events smiles nb text log →
  written e ≠ Some (smiles ++ lit ".out").
Proof.
  intros Hlog e He. unfold orcanize_events in He.
  repeat (apply elem_of_cons in He as [->|He]); [..|apply elem_of_nil in He; done];
    cbn [written]; try discriminate.
  - intros [= E]. symmetry in E. exact (out_not_inp _ _ E).
  - intros [= E]. apply (f_equal last) in E.
    rewrite (last_app_lit smiles ".out" 116) in E by reflexivity.
    destruct Hlog as [-> | ->]; vm_compute in E; discriminate.
Qed.

(** The two names that carry the Job Handle are named in the argument
    vector exactly when the identifier is the numeral of the Job Handle. *)
Lemma inp_in_argv (smiles : str) (nb : Z) :
  fmt nb ++ lit ".inp" ∈
    [ORCA_EXECUTABLE; smiles ++ lit ".inp"; lit ">"; smiles ++ lit ".out"]
  ↔ smiles = fmt nb.
Proof.
  split.
  - intros Hin.
    repeat (apply elem_of_cons in Hin as [E|Hin]);
      [..|apply elem_of_nil in Hin; destruct Hin].
    + apply (f_equal last) in E.
      rewrite (last_app_lit (fmt nb) ".inp" 112) in E by reflexivity.
      vm_compute in E. discriminate.
    + apply app_inv_tail in E. symmetry. exact E.
    + apply (f_equal last) in E.
      rewrite (last_app_lit (fmt nb) ".inp" 112) in E by reflexivity.
      vm_compute in E. discriminate.
    + symmetry in E. destruct (out_not_inp _ _ E).
  - intros ->. apply list_elem_of_further, list_elem_of_here.
Qed.

Lemma out_in_argv (smiles : str) (nb : Z) :
  fmt nb ++ lit ".out" ∈
    [ORCA_EXECUTABLE; smiles ++ lit ".inp"; lit ">"; smiles ++ lit ".out"]
  ↔ smiles = fmt nb.
Proof.
  split.
  - intros Hin.
    repeat (apply elem_of_cons in Hin as [E|Hin]);
      [..|apply elem_of_nil in Hin; destruct Hin].
    + apply (f_equal last) in E.
      rewrite (last_app_lit (fmt nb) ".out" 116) in E by reflexivity.
      vm_compute in E. discriminate.
    + destruct (out_not_inp _ _ E).
    + apply (f_equal last) in E.
      rewrite (last_app_lit (fmt nb) ".out" 116) in E by reflexivity.
      vm_compute in E. discriminate.
    + apply app_inv_tail in E. symmetry. exact E.
  - intros ->. do 3 apply list_elem_of_further. apply list_elem_of_here.
Qed.

(** On the events of a call that gets as far as the log, the names differ
    as the specification says exactly when the identifier is not the
    numeral of the Job Handle. *)
Lemma stems_differ_events (smiles : str) (nb : Z) (text log : str) :
  stems_differ (orcanize_events smiles nb text log) ↔ smiles ≠ fmt nb.
Proof.
  unfold stems_differ, orcanize_events, orca_argv. split.
  - intros H E.
    destruct (H [ORCA_EXECUTABLE; smiles ++ lit ".inp"; lit ">";
                 smiles ++ lit ".out"] false None) as [Hw _].
    { apply list_elem_of_further, list_elem_of_here. }
    apply (Hw (fmt nb ++ lit ".inp") text); [apply list_elem_of_here|].
    apply inp_in_argv, E.
  - intros Hne argv sh so Hin.
    repeat (apply elem_of_cons in Hin as [E|Hin]); try discriminate E;
      [|apply elem_of_nil in Hin; destruct Hin].
    injection E as -> -> ->. split.
    + intros path t Hin.
      repeat (apply elem_of_cons in Hin as [E|Hin]); try discriminate E;
        [|apply elem_of_nil in Hin; destruct Hin].
      injection E as -> ->. intros Hp. apply inp_in_argv in Hp. exact (Hne Hp).
    + intros path Hin.
      repeat (apply elem_of_cons in Hin as [E|Hin]); try discriminate E;
        [|apply elem_of_nil in Hin; destruct Hin].
      injection E as ->. intros Hp. apply out_in_argv in Hp. exact (Hne Hp).
Qed.

(** Nothing in [orcanize] itself keeps the two stems apart.  Where the
    Input Builder accepts the identifier "4", the call [orcanize("4", 4)]
    writes [4.inp], starts the program on [4.inp] and [4.out], and reads
    [4.out]. *)
Lemma orcanize_same_stem :
  snd (orcanize py_float_gt0 (sample_world []) (lit "4") 4 []) =
    [ WriteFile (lit "4.inp") (lit "* xyz 0 1.0" ++ [10] ++ lit "4");
      Exec [lit "orca"; lit "4.inp"; lit ">"; lit "4.out"] false None;
      ReadFile (lit "4.out");
      AppendFile (lit "undone.log") (lit "4 4" ++ [10]) ] ∧
  ¬ stems_differ (snd (orcanize py_float_gt0 (sample_world []) (lit "4") 4 [])).
Proof.
  assert (E : snd (orcanize py_float_gt0 (sample_world []) (lit "4") 4 []) =
    [ WriteFile (lit "4.inp") (lit "* xyz 0 1.0" ++ [10] ++ lit "4");
      Exec [lit "orca"; lit "4.inp"; lit ">"; lit "4.out"] false None;
      ReadFile (lit "4.out");
      AppendFile (lit "undone.log") (lit "4 4" ++ [10]) ])
    by (vm_compute; reflexivity).
  rewrite E. split; [reflexivity|]. intros H.
  destruct (H [lit "orca"; lit "4.inp"; lit ">"; lit "4.out"] false None)
    as [Hw _].
  { apply list_elem_of_further, list_elem_of_here. }
  apply (Hw (lit "4.inp") (lit "* xyz 0 1.0" ++ [10] ++ lit "4"));
    [apply list_elem_of_here|].
  apply list_elem_of_further, list_elem_of_here.
Qed.

(** C5: a call [orcanize(smiles, nb)] does what the answers of RDKit and
    of the launcher let it do.  When RDKit raises, nothing; when the
    program cannot be started, the input file [{nb}.inp] alone is written;
    otherwise [{nb}.inp] is written, the program is started on
    [{smiles}.inp] and [{smiles}.out], the report [{nb}.out] is read and
    one log gets the line.  RDKit reads no numeral as a SMILES; as it
    refuses the numeral of the Job Handle, the file the program is asked
    to read is never the file that was written, and the file that is read
    is never named in the invocation: the Input Builder is called first,
    so a call whose identifier is that numeral writes and starts nothing,
    and for any other identifier the names differ. *)
Theorem orcanize_file_names
    (fl : str → option bool) (w : world) (smiles : str) (nb : Z)
    (tr : list event) :
  (∃ e, job_text w tr (fmt nb) = Raise e) →
  let inp := fmt nb ++ lit ".inp" in
  let out := fmt nb ++ lit ".out" in
  let argv := [ORCA_EXECUTABLE; smiles ++ lit ".inp"; lit ">";
               smiles ++ lit ".out"] in
  ∃ new,
    snd (orcanize fl w smiles nb tr) = tr ++ new ∧
    match job_text w tr smiles with
    | Raise e => fst (orcanize fl w smiles nb tr) = Raise e ∧ new = []
    | Ok text =>
        match launch w (tr ++ [WriteFile inp text]) argv with
        | Raise e =>
            fst (orcanize fl w smiles nb tr) = Raise e ∧
            new = [WriteFile inp text]
        | Ok _ =>
            ∃ log r,
              fst (orcanize fl w smiles nb tr) = Ok r ∧
              new = [ WriteFile inp text; Exec argv false None;
                      ReadFile out; AppendFile log (log_line nb smiles) ] ∧
              smiles ++ lit ".inp" ≠ inp ∧ out ∉ argv
        end
    end ∧
    stems_differ new.
Proof.
  intros [e0 Hnum]. cbv zeta. rewrite orcanize_eq. unfold orca_argv.
  destruct (job_text w tr smiles) as [text|e] eqn:Hjob.
  - assert (Hne : smiles ≠ fmt nb).
    { intros ->. rewrite Hnum in Hjob. discriminate Hjob. }
    cbv zeta. destruct (launch w _ _) as [[]|e].
    + pose proof (orca_reader_trace fl w smiles nb
                    ((tr ++ [WriteFile (fmt nb ++ lit ".inp") text]) ++
                     [Exec [ORCA_EXECUTABLE; smiles ++ lit ".inp"; lit ">";
                            smiles ++ lit ".out"] false None])) as Hr.
      assert (Hnames : smiles ++ lit ".inp" ≠ fmt nb ++ lit ".inp" ∧
                fmt nb ++ lit ".out" ∉
                  [ORCA_EXECUTABLE; smiles ++ lit ".inp"; lit ">";
                   smiles ++ lit ".out"]).
      { split.
        - intros E. apply app_inv_tail in E. exact (Hne E).
        - intros E. apply out_in_argv in E. exact (Hne E). }
      destruct (orca_reader fl w smiles nb _) as [[m|e] tr3];
        cbn [fst snd] in Hr |- *; subst tr3.
      * exists (orcanize_events smiles nb text (lit "done.log")).
        split; [unfold orcanize_events; rewrite <- !app_assoc; reflexivity|].
        split; [|apply stems_differ_events, Hne].
        exists (lit "done.log"), (Some m). done.
      * exists (orcanize_events smiles nb text (lit "undone.log")).
        split; [unfold orcanize_events; rewrite <- !app_assoc; reflexivity|].
        split; [|apply stems_differ_events, Hne].
        exists (lit "undone.log"), None. done.
    + cbn [fst snd]. eexists. split; [reflexivity|]. split; [done|].
      intros argv sh so Hin. apply list_elem_of_singleton in Hin.
      discriminate Hin.
  - cbn [fst snd]. exists []. rewrite app_nil_r. split; [reflexivity|].
    split; [done|].
    intros argv sh so Hin. apply elem_of_nil in Hin. destruct Hin.
Qed.

Lemma orcanize_file_names_scenario :
  ∃ log r,
    orcanize py_float_gt0 (rdkit_world []) (lit "CCO") 4 [] =
      (Ok r,
       [ WriteFile (lit "4.inp") (lit "* xyz 0 1.0" ++ [10] ++ lit "CCO");
         Exec [lit "orca"; lit "CCO.inp"; lit ">"; lit "CCO.out"] false None;
         ReadFile (lit "4.out");
         AppendFile log (log_line 4 (lit "CCO")) ]) ∧
    lit "CCO.inp" ≠ lit "4.inp" ∧
    lit "4.out" ∉ [lit "orca"; lit "CCO.inp"; lit ">"; lit "CCO.out"].
Proof.
  destruct (orcanize_file_names py_float_gt0 (rdkit_world []) (lit "CCO") 4 [])
    as (new & Htr & Hrun & _).
  - exists RDKitError. vm_compute. reflexivity.
  - cbn [rdkit_world job_text launch] in Hrun.
    change (numeral (lit "CCO")) with false in Hrun. cbv iota in Hrun.
    destruct Hrun as (log & r & Hok & Hnew & Hinp & Hout).
    exists log, r. split; [|split; [exact Hinp|exact Hout]].
    destruct (orcanize py_float_gt0 (rdkit_world []) (lit "CCO") 4 [])
      as [res tr']. cbn [fst snd] in Htr, Hok. subst res tr' new. reflexivity.
Defined.

(** C10: [orcanize] starts the program with exactly the four strings
    "orca", "{smiles}.inp", ">" and "{smiles}.out" as its argument vector,
    without a shell and without redirecting its output: ">" is the third
    argument, and no file the function itself writes is [{smiles}.out].
    It does so once, right after it has written the input file, whenever
    RDKit builds the job and the launcher can start the program; no call
    starts anything else. *)
Theorem orcanize_invocation
    (fl : str → option bool) (w : world) (smiles : str) (nb : Z)
    (tr : list event) :
  let argv := [lit "orca"; smiles ++ lit ".inp"; lit ">";
               smiles ++ lit ".out"] in
  ∃ new,
    snd (orcanize fl w smiles nb tr) = tr ++ new ∧
    (∀ a shell stdout, Exec a shell stdout ∈ new →
       a = argv ∧ a !! 2%nat = Some (lit ">") ∧ length a = 4%nat ∧
       shell = false ∧ stdout = None) ∧
    (∀ e, e ∈ new → written e ≠ Some (smiles ++ lit ".out")) ∧
    (∀ r, fst (orcanize fl w smiles nb tr) = Ok r →
       Exec argv false None ∈ new) ∧
    (∀ text,
       job_text w tr smiles = Ok text →
       launch w (tr ++ [WriteFile (fmt nb ++ lit ".inp") text]) argv = Ok () →
       ∃ log r,
         fst (orcanize fl w smiles nb tr) = Ok r ∧
         new = [ WriteFile (fmt nb ++ lit ".inp") text; Exec argv false None;
                 ReadFile (fmt nb ++ lit ".out");
                 AppendFile log (log_line nb smiles) ]).
Proof.
  cbv zeta.
  change [lit "orca"; smiles ++ lit ".inp"; lit ">"; smiles ++ lit ".out"]
    with (orca_argv smiles).
  rewrite orcanize_eq.
  destruct (job_text w tr smiles) as [text|e] eqn:Hjob.
  - cbv zeta. destruct (launch w _ (orca_argv smiles)) as [[]|e] eqn:Hlaunch.
    + pose proof (orca_reader_trace fl w smiles nb
                    ((tr ++ [WriteFile (fmt nb ++ lit ".inp") text]) ++
                     [Exec (orca_argv smiles) false None])) as Hr.
      assert (Hev : ∀ log r,
                log = lit "done.log" ∨ log = lit "undone.log" →
                ∃ new,
                  tr ++ orcanize_events smiles nb text log = tr ++ new ∧
                  (∀ a shell stdout, Exec a shell stdout ∈ new →
                     a = orca_argv smiles ∧ a !! 2%nat = Some (lit ">") ∧
                     length a = 4%nat ∧ shell = false ∧ stdout = None) ∧
                  (∀ e, e ∈ new → written e ≠ Some (smiles ++ lit ".out")) ∧
                  (∀ r0 : option (gmap (list N) (list N)),
                     Ok r = Ok r0 → Exec (orca_argv smiles) false None ∈ new) ∧
                  (∀ text0,
                     Ok text = Ok text0 →
                     launch w (tr ++ [WriteFile (fmt nb ++ lit ".inp") text0])
                       (orca_argv smiles) = Ok () →
                     ∃ log0 r0,
                       Ok r = Ok r0 ∧
                       new = [ WriteFile (fmt nb ++ lit ".inp") text0;
                               Exec (orca_argv smiles) false None;
                               ReadFile (fmt nb ++ lit ".out");
                               AppendFile log0 (log_line nb smiles) ])).
      { intros log r Hlog. exists (orcanize_events smiles nb text log).
        split; [reflexivity|]. split; [|split; [|split]].
        - intros a sh so Hin. unfold orcanize_events in Hin.
          repeat (apply elem_of_cons in Hin as [E|Hin]); try discriminate E;
            [|apply elem_of_nil in Hin; destruct Hin].
          injection E as -> -> ->. done.
        - apply out_not_written, Hlog.
        - intros _ _. unfold orcanize_events.
          apply list_elem_of_further, list_elem_of_here.
        - intros text0 [= <-] _. exists log, r. split; reflexivity. }
      destruct (orca_reader fl w smiles nb _) as [[m|e] tr3];
        cbn [snd] in Hr; subst tr3; cbn [fst snd].
      * destruct (Hev (lit "done.log") (Some m) (or_introl eq_refl))
          as (new & Htr & H).
        exists new. split; [|exact H].
        rewrite <- Htr. unfold orcanize_events. rewrite <- !app_assoc. reflexivity.
      * destruct (Hev (lit "undone.log") None (or_intror eq_refl))
          as (new & Htr & H).
        exists new. split; [|exact H].
        rewrite <- Htr. unfold orcanize_events. rewrite <- !app_assoc. reflexivity.
    + cbn [fst snd]. eexists. split; [reflexivity|].
      split; [intros ??? Hin; apply list_elem_of_singleton in Hin; discriminate|].
      split; [|split; [discriminate|]].
      * intros e' Hin. apply list_elem_of_singleton in Hin as ->. cbn [written].
        intros [= E]. symmetry in E. exact (out_not_inp _ _ E).
      * intros text0 [= <-] Hl. rewrite Hl in Hlaunch. discriminate Hlaunch.
  - cbn [fst snd]. exists []. rewrite app_nil_r. split; [reflexivity|].
    split; [intros ??? Hin; apply elem_of_nil in Hin; destruct Hin|].
    split; [intros ? Hin; apply elem_of_nil in Hin; destruct Hin|].
    split; [discriminate|]. intros text0 Ht. discriminate Ht.
Qed.

Lemma orcanize_invocation_scenario :
  Exec [lit "orca"; lit "CCO" ++ lit ".inp"; lit ">"; lit "CCO" ++ lit ".out"]
       false None
    ∈ snd (orcanize py_float_gt0 (sample_world []) (lit "CCO") 0 []).
Proof.
  destruct (orcanize_invocation py_float_gt0 (sample_world []) (lit "CCO") 0 [])
    as (new & Htr & _ & _ & _ & Hrun).
  destruct (Hrun (lit "* xyz 0 1.0" ++ [10] ++ lit "CCO") eq_refl eq_refl)
    as (log & r & _ & Hnew).
  rewrite Htr, Hnew. apply list_elem_of_further, list_elem_of_here.
Defined.


(** ** The batch: [orcanize_many] *)

Lemma appended_app path a b :
  appended path (a ++ b) = appended path a ++ appended path b.
Proof. apply omap_app. Qed.

Lemma persisted_app path a b :
  persisted path (a ++ b) = persisted path a ++ persisted path b.
Proof. apply omap_app. Qed.

Lemma appended_orcanize_events path smiles nb text log :
  appended path (orcanize_events smiles nb text log) =
    if bool_decide (log = path) then [log_line nb smiles] else [].
Proof.
  unfold orcanize_events, appended. cbn [omap list_omap].
  destruct (bool_decide (log = path)); reflexivity.
Qed.

Lemma persisted_orcanize_events path smiles nb text log :
  persisted path (orcanize_events smiles nb text log) = [].
Proof. reflexivity. Qed.

Section Batch.

Variable fl : str → option bool.
Variable w : world.

Lemma for_each_cons save nb smiles rest outdata tr :
  for_each fl w save ((nb, smiles) :: rest) outdata tr =
    match orcanize fl w smiles nb (tr ++ [PrintLine (log_line nb smiles)]) with
    | (Raise e, tr1) => (Raise e, tr1)
    | (Ok dat, tr1) =>
        let outdata' := append outdata (DataFrame dat) in
        for_each fl w save rest outdata'
          (if save then tr1 ++ [ToCsv (lit "orkanized.csv") outdata'] else tr1)
    end.
Proof.
  cbn [for_each]. unfold emit. cbv [mbind M_bind mret M_ret].
  destruct (orcanize fl w smiles nb _) as [[dat|e] tr1]; [|reflexivity].
  destruct save; reflexivity.
Qed.

(** A call that returns has read the report and written one log line. *)
Lemma orcanize_returns smiles nb tr dat tr' :
  orcanize fl w smiles nb tr = (Ok dat, tr') →
  ∃ text log,
    tr' = tr ++ orcanize_events smiles nb text log ∧
    outcome_of fl w (nb, smiles) dat ∧
    ((is_Some dat ∧ log = lit "done.log") ∨ (dat = None ∧ log = lit "undone.log")).
Proof.
  intros Hrun.
  destruct (orcanize_cases fl w smiles nb tr)
    as [(e & H)|[(text & e & H)|[(text & m & Hm & H)|(text & e & He & H)]]];
    rewrite H in Hrun; try discriminate Hrun; injection Hrun as <- <-.
  - exists text, (lit "done.log"). split; [reflexivity|]. split.
    + eexists. exact Hm.
    + left. split; [eexists; reflexivity|reflexivity].
  - exists text, (lit "undone.log"). split; [reflexivity|]. split.
    + eexists. exists e. exact He.
    + right. done.
Qed.

(** What a completed run of the loop leaves behind. *)
Lemma for_each_completed save pairs : ∀ outdata tr result_table tr',
  for_each fl w save pairs outdata tr = (Ok result_table, tr') →
  ∃ outcomes new,
    length outcomes = length pairs ∧
    tr' = tr ++ new ∧
    result_table = outdata ++ (default ∅ <$> outcomes) ∧
    Forall2 (outcome_of fl w) pairs outcomes ∧
    appended (lit "done.log") new =
      (λ p, log_line p.1 p.2) <$> succeeded pairs outcomes ∧
    appended (lit "undone.log") new =
      (λ p, log_line p.1 p.2) <$> failed pairs outcomes ∧
    persisted (lit "orkanized.csv") new =
      if save
      then (λ k, outdata ++ take (S k) (default ∅ <$> outcomes))
             <$> seq 0 (length pairs)
      else [].
Proof.
  induction pairs as [|[nb smiles] rest IH]; intros outdata tr table0 tr' Hrun.
  - injection Hrun as <- <-. exists [], [].
    rewrite !app_nil_r. destruct save; done.
  - rewrite for_each_cons in Hrun.
    destruct (orcanize fl w smiles nb _) as [[dat|e] tr1] eqn:Horc;
      [|discriminate Hrun].
    apply orcanize_returns in Horc as (text & log & -> & Hdat & Hlog).
    cbv zeta in Hrun.
    set (outdata' := append outdata (DataFrame dat)) in Hrun.
    set (csv := if save then [ToCsv (lit "orkanized.csv") outdata'] else []).
    assert (Htr : ∀ t, (if save then t ++ [ToCsv (lit "orkanized.csv") outdata']
                        else t) = t ++ csv).
    { intros t. unfold csv. destruct save; [reflexivity|].
      rewrite app_nil_r. reflexivity. }
    rewrite Htr in Hrun.
    apply IH in Hrun
      as (outcomes & new & Hlen & -> & -> & Hout & Hdone & Hundone & Hcsv).
    exists (dat :: outcomes),
      ([PrintLine (log_line nb smiles)] ++
       orcanize_events smiles nb text log ++ csv ++ new).
    assert (Hnocsv : ∀ path, appended path csv = []).
    { intros path. unfold csv. destruct save; reflexivity. }
    split; [cbn; lia|]. split; [rewrite <- !app_assoc; reflexivity|].
    split.
    { unfold outdata', append, DataFrame. rewrite <- app_assoc. reflexivity. }
    split; [constructor; [exact Hdat|exact Hout]|].
    split; [|split].
    + rewrite !appended_app, appended_orcanize_events, Hnocsv, Hdone.
      destruct Hlog as [[[m ->] ->]|[-> ->]]; reflexivity.
    + rewrite !appended_app, appended_orcanize_events, Hnocsv, Hundone.
      destruct Hlog as [[[m ->] ->]|[-> ->]]; reflexivity.
    + rewrite !persisted_app, persisted_orcanize_events, Hcsv.
      unfold csv. destruct save; [|reflexivity].
      cbn [persisted omap list_omap app].
      rewrite bool_decide_eq_true_2 by reflexivity.
      cbn [length seq fmap list_fmap take app]. f_equal.
      rewrite <- fmap_S_seq, <- list_fmap_compose.
      apply list_fmap_ext. intros _ k _. cbn.
      unfold outdata', append, DataFrame. rewrite <- app_assoc. reflexivity.
Qed.

End Batch.

(** ** Job Handles in the logs *)

Lemma lit_cons (c : ascii) (s : string) : lit (String c s) = N_of_ascii c :: lit s.
Proof. reflexivity. Qed.

Lemma uint_no_space (d : Decimal.uint) :
  Forall (λ c, c ≠ 32) (lit (NilEmpty.string_of_uint d)).
Proof.
  induction d; cbn [NilEmpty.string_of_uint]; [apply Forall_nil_2|..];
    rewrite lit_cons; (apply Forall_cons_2; [discriminate|assumption]).
Qed.

Lemma fmt_no_space (nb : Z) : Forall (λ c, c ≠ 32) (fmt nb).
Proof.
  unfold fmt.
  assert (H : ∀ d, Forall (λ c, c ≠ 32) (lit (NilZero.string_of_uint d))).
  { intros d. pose proof (uint_no_space d) as Hd.
    destruct d; try exact Hd. apply Forall_cons_2; [discriminate|apply Forall_nil_2]. }
  destruct (Z.to_int nb) as [d|d]; cbn [NilZero.string_of_int].
  - apply H.
  - rewrite lit_cons. apply Forall_cons_2; [discriminate|apply H].
Qed.

Lemma fmt_inj (a b : Z) : fmt a = fmt b → a = b.
Proof.
  unfold fmt. intros E. apply lit_inj in E.
  assert (Hnn : ∀ z, Z.to_int z ≠ Decimal.Pos Decimal.Nil ∧
                     Z.to_int z ≠ Decimal.Neg Decimal.Nil).
  { intros [|p|p]; cbn; split; try discriminate;
      intros [= H]; exact (DecimalPos.Unsigned.to_uint_nonnil p H). }
  apply (f_equal NilZero.int_of_string) in E.
  rewrite !NilZero.isi in E by apply Hnn.
  injection E as E. apply DecimalZ.to_int_inj, E.
Qed.

Lemma handle_of_app (a b : str) :
  Forall (λ c, c ≠ 32) a → handle_of (a ++ 32 :: b) = a.
Proof.
  induction 1 as [|c a Hc _ IH]; cbn [app handle_of].
  - reflexivity.
  - destruct (N.eqb_spec c 32) as [->|_]; [done|]. rewrite IH. reflexivity.
Qed.

Lemma handle_of_log_line (nb : Z) (smiles : str) :
  handle_of (log_line nb smiles) = fmt nb.
Proof. unfold log_line. apply handle_of_app, fmt_no_space. Qed.

Lemma enumerate_handles {A} (l : list A) :
  fst <$> enumerate l = Z.of_nat <$> seq 0 (length l).
Proof.
  unfold enumerate.
  assert (H : ∀ (k : nat) (l : list A),
            fst <$> imap (λ i x, (Z.of_nat (k + i), x)) l
            = Z.of_nat <$> seq k (length l)).
  { intros k l'. revert k. induction l' as [|x l' IH]; intros k; [reflexivity|].
    cbn [imap fmap list_fmap length seq fst]. rewrite Nat.add_0_r. f_equal.
    rewrite <- (IH (S k)). f_equal. apply imap_ext. intros i y _. cbn.
    f_equal. f_equal. lia. }
  apply (H 0%nat).
Qed.

Lemma enumerate_length {A} (l : list A) : length (enumerate l) = length l.
Proof. unfold enumerate. apply length_imap. Qed.

Lemma succeeded_failed {A} (pairs : list (Z * str)) : ∀ outcomes : list (option A),
  length outcomes = length pairs →
  succeeded pairs outcomes ++ failed pairs outcomes ≡ₚ pairs.
Proof.
  induction pairs as [|p pairs IH]; intros [|[a|] outcomes] Hlen;
    try discriminate Hlen; cbn [succeeded failed].
  - reflexivity.
  - cbn [app]. constructor. apply IH. cbn in Hlen. lia.
  - rewrite <- Permutation_middle. constructor. apply IH. cbn in Hlen. lia.
Qed.

(** C4, the counterexample: the second identifier of the batch is refused
    by RDKit, the exception leaves [orcanize_many], and of the three Job
    Handles only the first is in a log. *)
Lemma batch_aborted_by_generator :
  fst (orcanize_many py_float_gt0 rejecting_world rejected_batch true [])
    = Raise RDKitError ∧
  handles (lit "done.log")
    (snd (orcanize_many py_float_gt0 rejecting_world rejected_batch true [])) = [] ∧
  handles (lit "undone.log")
    (snd (orcanize_many py_float_gt0 rejecting_world rejected_batch true []))
    = [lit "0"].
Proof. split; [|split]; vm_compute; reflexivity. Qed.

(** C4, as amended: in every batch run over N molecules that runs to its
    end, each pair of a Job Handle 0..N-1 and its identifier is appended,
    as the line [{nb} {smiles}], to exactly one of done.log and undone.log;
    the Job Handles of the two logs are disjoint and together they are
    N. *)
Theorem batch_logs_partition
    (fl : str → option bool) (w : world) (molecules : list str) (save : bool)
    (tr tr' : list event) (result_table : table) :
  orcanize_many fl w molecules save tr = (Ok result_table, tr') →
  ∃ new ok bad,
    tr' = tr ++ new ∧
    appended (lit "done.log") new = (λ p, log_line p.1 p.2) <$> ok ∧
    appended (lit "undone.log") new = (λ p, log_line p.1 p.2) <$> bad ∧
    ok ++ bad ≡ₚ enumerate molecules ∧
    handles (lit "done.log") new = (λ p, fmt p.1) <$> ok ∧
    handles (lit "undone.log") new = (λ p, fmt p.1) <$> bad ∧
    (list_to_set (handles (lit "done.log") new) : gset (list N)) ##
      list_to_set (handles (lit "undone.log") new) ∧
    size (list_to_set (handles (lit "done.log") new) ∪
          list_to_set (handles (lit "undone.log") new) : gset (list N))
      = length molecules.
Proof.
  unfold orcanize_many. intros Hrun.
  apply for_each_completed in Hrun
    as (outcomes & new & Hlen & -> & _ & _ & Hdone & Hundone & _).
  exists new, (succeeded (enumerate molecules) outcomes),
    (failed (enumerate molecules) outcomes).
  pose proof (succeeded_failed (enumerate molecules) outcomes Hlen) as Hperm.
  assert (Hh : ∀ l : list (Z * str),
            handle_of <$> ((λ p, log_line p.1 p.2) <$> l) = (λ p, fmt p.1) <$> l).
  { intros l. rewrite <- list_fmap_compose. apply list_fmap_ext.
    intros _ [nb s] _. apply handle_of_log_line. }
  assert (Hnodup : NoDup (((λ p : Z * str, fmt p.1) <$>
                             succeeded (enumerate molecules) outcomes) ++
                          ((λ p : Z * str, fmt p.1) <$>
                             failed (enumerate molecules) outcomes))).
  { rewrite <- fmap_app, Hperm.
    change (λ p : Z * str, fmt p.1) with (fmt ∘ (fst : Z * str → Z)).
    rewrite list_fmap_compose, enumerate_handles.
    apply NoDup_fmap_2; [intros a b; apply fmt_inj|].
    apply NoDup_fmap_2; [apply Nat2Z.inj'|apply NoDup_seq]. }
  unfold handles. rewrite Hdone, Hundone, !Hh.
  repeat split; try done.
  - apply NoDup_app in Hnodup as (_ & Hdisj & _).
    intros h H1 H2. apply elem_of_list_to_set in H1, H2. exact (Hdisj h H1 H2).
  - rewrite <- list_to_set_app_L, size_list_to_set by exact Hnodup.
    rewrite <- fmap_app, length_fmap, Hperm. apply enumerate_length.
Qed.

Lemma batch_logs_partition_scenario :
  handles (lit "done.log")
    (snd (orcanize_many py_float_gt0 sample_batch_world sample_batch true []))
    = [lit "0"; lit "1"; lit "2"] ∧
  size (list_to_set
          (handles (lit "done.log")
             (snd (orcanize_many py_float_gt0 sample_batch_world sample_batch true []))) ∪
        list_to_set
          (handles (lit "undone.log")
             (snd (orcanize_many py_float_gt0 sample_batch_world sample_batch true [])))
        : gset (list N)) = 3%nat.
Proof.
  destruct (batch_logs_partition py_float_gt0 sample_batch_world sample_batch true []
              (snd (orcanize_many py_float_gt0 sample_batch_world sample_batch true []))
              (match fst (orcanize_many py_float_gt0 sample_batch_world
                            sample_batch true []) with
               | Ok t => t
               | Raise _ => []
               end))
    as (new & ok & bad & Htr & _ & _ & _ & _ & _ & _ & Hsize).
  - vm_compute. reflexivity.
  - cbn [app] in Htr. rewrite Htr. split; [|exact Hsize].
    rewrite <- Htr. vm_compute. reflexivity.
Defined.

(** ** The Result Table *)

Lemma orca_reader_empty_file fl w smiles nb tr :
  file_at w tr (fmt nb ++ lit ".out") = Some [] →
  fst (orca_reader fl w smiles nb tr) = Ok {[lit "smiles" := smiles]}.
Proof. intros H. unfold orca_reader. rewrite H. reflexivity. Qed.

Lemma valued_outcomes (outcomes : list (option (gmap (list N) (list N)))) :
  Forall (λ o, ∀ m, o = Some m → m ≠ ∅) outcomes →
  valued (default ∅ <$> outcomes) = omap id outcomes.
Proof.
  unfold valued. induction 1 as [|o outcomes Ho _ IH]; [reflexivity|].
  cbn [fmap list_fmap omap list_omap]. destruct o as [m|]; cbn [default id].
  - rewrite filter_cons_True by exact (Ho m eq_refl). rewrite IH. reflexivity.
  - rewrite filter_cons_False by (intros H; exact (H eq_refl)). exact IH.
Qed.

Lemma enumerate_lookup {A} (l : list A) (i : nat) :
  enumerate l !! i = (λ x, (Z.of_nat i, x)) <$> l !! i.
Proof. unfold enumerate. rewrite list_lookup_imap. reflexivity. Qed.




(** ** The coordinates of the job file *)

Lemma split_on_piece sep (p : str) : ∀ cur rest,
  Forall (λ c, c ≠ sep) p →
  split_on sep cur (p ++ sep :: rest) = (rev cur ++ p) :: split_on sep [] rest.
Proof.
  induction p as [|c p IH]; intros cur rest Hp; cbn [app split_on].
  - rewrite N.eqb_refl, app_nil_r. reflexivity.
  - apply Forall_cons in Hp as [Hc Hp].
    destruct (N.eqb_spec c sep) as [->|_]; [done|].
    rewrite IH by exact Hp. cbn [rev]. rewrite <- app_assoc. reflexivity.
Qed.

Lemma split_on_last sep (p : str) : ∀ cur,
  Forall (λ c, c ≠ sep) p → split_on sep cur p = [rev cur ++ p].
Proof.
  induction p as [|c p IH]; intros cur Hp; cbn [split_on].
  - rewrite app_nil_r. reflexivity.
  - apply Forall_cons in Hp as [Hc Hp].
    destruct (N.eqb_spec c sep) as [->|_]; [done|].
    rewrite IH by exact Hp. cbn [rev]. rewrite <- app_assoc. reflexivity.
Qed.

(** Splitting what [join] made gives the pieces back. *)
Lemma split_on_join sep (pieces : list str) :
  pieces ≠ [] → Forall (Forall (λ c, c ≠ sep)) pieces →
  split_on sep [] (join [sep] pieces) = pieces.
Proof.
  induction pieces as [|p pieces IH]; intros Hne Hall; [done|].
  apply Forall_cons in Hall as [Hp Hall].
  destruct pieces as [|q pieces].
  - cbn [join]. apply (split_on_last sep p [] Hp).
  - change (join [sep] (p :: q :: pieces)) with (p ++ sep :: join [sep] (q :: pieces)).
    rewrite (split_on_piece sep p [] _ Hp), IH by done. reflexivity.
Qed.

Lemma join_terminated (ls : list str) :
  concat ((λ l, l ++ [10]) <$> ls) = join [10] (ls ++ [[]]).
Proof.
  induction ls as [|l ls IH]; [reflexivity|].
  cbn [fmap list_fmap concat app]. rewrite IH.
  destruct ls as [|l' ls]; cbn [app join]; rewrite <- ?app_assoc; reflexivity.
Qed.

Lemma slice_2_m1_middle {A} (a b : A) (l : list A) (z : A) :
  slice_2_m1 (a :: b :: l ++ [z]) = l.
Proof.
  unfold slice_2_m1. cbn [drop length]. rewrite length_app. cbn [length].
  replace (S (S (length l + 1)) - 1 - 2)%nat with (length l) by lia.
  apply take_app_length.
Qed.

Lemma no_newline_check (s : str) :
  forallb (λ c, negb (c =? 10)) s = true → no_newline s.
Proof.
  intros H. rewrite forallb_forall in H. apply Forall_forall.
  intros c Hc ->. apply list_elem_of_In, H in Hc. discriminate Hc.
Qed.

Ltac newline_free :=
  repeat (apply Forall_cons_2; [apply no_newline_check; reflexivity|]);
  first [apply Forall_nil_2 | apply no_newline_check; reflexivity].

Lemma join_app sep (l1 l2 : list str) :
  l1 ≠ [] → l2 ≠ [] → join sep (l1 ++ l2) = join sep l1 ++ sep ++ join sep l2.
Proof.
  intros H1 H2. induction l1 as [|p l1 IH]; [done|].
  destruct l1 as [|q l1].
  - destruct l2 as [|r l2]; [done|]. reflexivity.
  - change (join sep ((p :: q :: l1) ++ l2))
      with (p ++ sep ++ join sep ((q :: l1) ++ l2)).
    rewrite IH by done.
    change (join sep (p :: q :: l1)) with (p ++ sep ++ join sep (q :: l1)).
    rewrite <- !app_assoc. reflexivity.
Qed.

Lemma join_prefix sep (pre p : str) (rest : list str) :
  pre ++ join sep (p :: rest) = join sep ((pre ++ p) :: rest).
Proof. destruct rest; cbn [join]; rewrite <- ?app_assoc; reflexivity. Qed.

Lemma concat_then_join (ls more : list str) :
  more ≠ [] →
  concat ((λ l, l ++ [10]) <$> ls) ++ join [10] more = join [10] (ls ++ more).
Proof.
  intros Hm. induction ls as [|l ls IH]; [reflexivity|].
  cbn [fmap list_fmap concat app]. rewrite <- !app_assoc, IH.
  destruct (ls ++ more) as [|x y] eqn:E; [|reflexivity].
  apply app_eq_nil in E as [_ E]. done.
Qed.

Lemma uint_chars (d : Decimal.uint) :
  Forall (λ c, isdigit c = true) (lit (NilEmpty.string_of_uint d)).
Proof.
  induction d; cbn [NilEmpty.string_of_uint]; [apply Forall_nil_2|..];
    rewrite lit_cons; (apply Forall_cons_2; [reflexivity|assumption]).
Qed.

(** [f"{nb}"] is a run of digits, after a minus sign when [nb] is
    negative. *)
Lemma fmt_chars (nb : Z) : Forall (λ c, isdigit c = true ∨ c = 45) (fmt nb).
Proof.
  unfold fmt.
  assert (H : ∀ d, Forall (λ c, isdigit c = true ∨ c = 45)
                     (lit (NilZero.string_of_uint d))).
  { intros d. pose proof (uint_chars d) as Hd.
    assert (Hd' : Forall (λ c, isdigit c = true ∨ c = 45)
                    (lit (NilEmpty.string_of_uint d)))
      by (eapply Forall_impl; [exact Hd|intros c Hc; left; exact Hc]).
    destruct d; try exact Hd'.
    apply Forall_cons_2; [left; reflexivity|apply Forall_nil_2]. }
  destruct (Z.to_int nb) as [d|d]; cbn [NilZero.string_of_int].
  - apply H.
  - rewrite lit_cons. apply Forall_cons_2; [right; reflexivity|apply H].
Qed.

Lemma fmt_no_newline (nb : Z) : no_newline (fmt nb).
Proof.
  eapply Forall_impl; [apply fmt_chars|].
  intros c [Hc| ->] E; [subst c; discriminate Hc|discriminate E].
Qed.

(** X1: for any non-empty list of pieces free of newlines, the coordinates
    taken from their join by newlines are the pieces but the first two and
    the last, joined again; a block that does not end in a newline loses
    its last atom line. *)
Theorem xyz_body_of_join (pieces : list str) :
  pieces ≠ [] → Forall no_newline pieces →
  split_on 10 [] (join [10] pieces) = pieces ∧
  xyz_body (join [10] pieces) = join [10] (slice_2_m1 pieces).
Proof.
  intros Hne Hall.
  assert (H : split_on 10 [] (join [10] pieces) = pieces)
    by (apply split_on_join; assumption).
  split; [exact H|]. unfold xyz_body. rewrite H. reflexivity.
Qed.

Lemma xyz_body_of_join_cut_block :
  xyz_body (join [10] sample_cut_block) =
    lit "O 0.0 0.0 0.1" ++ [10] ++ lit "H 0.0 0.7 -0.4".
Proof.
  destruct (xyz_body_of_join sample_cut_block) as [_ H].
  - discriminate.
  - unfold sample_cut_block; newline_free.
  - rewrite H. reflexivity.
Defined.

Lemma xyz_body_block (count comment : str) (atoms : list str) :
  no_newline count → no_newline comment → Forall no_newline atoms →
  xyz_body (xyz_block count comment atoms) = join [10] atoms.
Proof.
  intros Hc Hm Ha. unfold xyz_block. rewrite join_terminated.
  unfold xyz_body. rewrite split_on_join.
  - change ((count :: comment :: atoms) ++ [[]])
      with (count :: comment :: atoms ++ [[]]).
    rewrite slice_2_m1_middle. reflexivity.
  - discriminate.
  - apply Forall_app. split; [|apply Forall_cons_2; [apply Forall_nil_2|apply Forall_nil_2]].
    apply Forall_cons_2; [exact Hc|]. apply Forall_cons_2; [exact Hm|exact Ha].
Qed.

(** X2: for an XYZ block as RDKit writes it - count line, comment line,
    atom lines, each ended by a newline - the coordinates put into the job
    file are exactly the atom lines, joined by newlines: the two header
    lines and the empty piece after the last newline are dropped. *)
Theorem xyz_body_of_block (count comment : str) (atoms : list str) :
  no_newline count → no_newline comment → Forall no_newline atoms →
  xyz_body (xyz_block count comment atoms) = join [10] atoms.
Proof. apply xyz_body_block. Qed.

Lemma xyz_body_of_block_water :
  xyz_body sample_block =
    lit "O 0.0 0.0 0.1" ++ [10] ++ lit "H 0.0 0.7 -0.4" ++ [10] ++
    lit "H 0.0 -0.7 -0.4".
Proof.
  unfold sample_block. rewrite xyz_body_of_block.
  - reflexivity.
  - newline_free.
  - newline_free.
  - newline_free.
Defined.

(** X3: the job file built from a well-formed block with at least one atom
    has the fourteen directive lines, then the line
    [    * xyz {charge} {spin}], then the atom lines in order - the first
    one after four spaces, the others as RDKit wrote them - and a last
    line [    *] with no newline after it. *)
Theorem file_output_lines
    (charge : Z) (spin count comment atom : str) (atoms : list str) :
  no_newline spin → no_newline count → no_newline comment →
  Forall no_newline (atom :: atoms) →
  split_on 10 [] (file_output charge spin (xyz_block count comment (atom :: atoms)))
  = (lit <$> directives) ++
    [lit "    * xyz " ++ fmt charge ++ lit " " ++ spin; lit "    " ++ atom] ++
    atoms ++ [lit "    *"].
Proof.
  intros Hs Hc Hm Ha.
  set (lines := (lit <$> directives) ++
    [lit "    * xyz " ++ fmt charge ++ lit " " ++ spin; lit "    " ++ atom] ++
    atoms ++ [lit "    *"]).
  assert (E : file_output charge spin (xyz_block count comment (atom :: atoms))
              = join [10] lines).
  { unfold file_output. rewrite (xyz_body_block count comment _ Hc Hm Ha).
    unfold lines. rewrite <- concat_then_join by discriminate.
    rewrite <- list_fmap_compose. f_equal.
    change ([lit "    * xyz " ++ fmt charge ++ lit " " ++ spin; lit "    " ++ atom]
            ++ atoms ++ [lit "    *"])
      with ([lit "    * xyz " ++ fmt charge ++ lit " " ++ spin]
            ++ ((lit "    " ++ atom) :: atoms) ++ [lit "    *"]).
    rewrite (join_app [10] [_]) by (try discriminate; destruct atoms; discriminate).
    rewrite (join_app [10] (_ :: atoms)) by discriminate.
    change (join [10] [lit "    *"]) with (lit "    *").
    change (join [10] [lit "    * xyz " ++ fmt charge ++ lit " " ++ spin])
      with (lit "    * xyz " ++ fmt charge ++ lit " " ++ spin).
    rewrite <- (join_prefix [10] (lit "    ") atom atoms).
    rewrite <- !app_assoc. reflexivity. }
  rewrite E. apply split_on_join; [unfold lines; discriminate|].
  assert (Hlit : ∀ s : string,
            forallb (λ c, negb (c =? 10)) (lit s) = true → no_newline (lit s))
    by (intros s; apply no_newline_check).
  apply Forall_cons in Ha as [Ha1 Ha].
  unfold lines. apply Forall_app. split.
  - unfold directives. cbn [fmap list_fmap].
    repeat (apply Forall_cons_2; [apply Hlit; reflexivity|]). apply Forall_nil_2.
  - apply Forall_cons_2.
    { repeat (apply Forall_app; split);
        [apply Hlit; reflexivity|apply fmt_no_newline|apply Hlit; reflexivity|exact Hs]. }
    apply Forall_cons_2.
    { apply Forall_app; split; [apply Hlit; reflexivity|exact Ha1]. }
    apply Forall_app. split; [exact Ha|].
    apply Forall_cons_2; [apply Hlit; reflexivity|apply Forall_nil_2].
Qed.

Lemma file_output_lines_water :
  drop 14 (split_on 10 [] (file_output 0 (lit "1.0") sample_block))
  = [ lit "    * xyz 0 1.0"; lit "    O 0.0 0.0 0.1"; lit "H 0.0 0.7 -0.4";
      lit "H 0.0 -0.7 -0.4"; lit "    *" ].
Proof.
  unfold sample_block. rewrite file_output_lines.
  - reflexivity.
  - newline_free.
  - newline_free.
  - newline_free.
  - newline_free.
Defined.

(** ** Reading the report file, lines 77-78 *)

Lemma translate_other (c : N) (s : str) :
  c ≠ 13 → translate_newlines (c :: s) = c :: translate_newlines s.
Proof.
  intros Hc. destruct c as [|p]; [reflexivity|].
  do 4 (destruct p as [p|p|]; try reflexivity). done.
Qed.

Lemma translate_cr (s : str) :
  translate_newlines (13 :: s) =
    match s with
    | 10 :: _ => translate_newlines s
    | _ => 10 :: translate_newlines s
    end.
Proof. reflexivity. Qed.

Lemma translate_line (l eol rest : str) :
  plain_line l → line_ending eol →
  (eol = [13] → match rest with 10 :: _ => False | _ => True end) →
  translate_newlines (l ++ eol ++ rest) = l ++ 10 :: translate_newlines rest.
Proof.
  intros Hl Heol Hrest. induction Hl as [|c l (_ & _ & Hc) _ IH].
  - cbn [app]. destruct Heol as [->|[->| ->]]; cbn [app].
    + apply translate_other. discriminate.
    + rewrite translate_cr. apply translate_other. discriminate.
    + specialize (Hrest eq_refl). rewrite translate_cr.
      destruct rest as [|c rest]; [reflexivity|].
      destruct (N.eq_dec c 10) as [->|Hne]; [done|].
      destruct c as [|p]; [reflexivity|].
      do 4 (destruct p as [p|p|]; try reflexivity). done.
  - cbn [app]. rewrite translate_other by exact Hc. rewrite IH. reflexivity.
Qed.

Lemma translate_lines (ls : list str) (eol : str) :
  Forall plain_line ls → line_ending eol →
  translate_newlines (concat ((λ l, l ++ eol) <$> ls))
  = concat ((λ l, l ++ [10]) <$> ls).
Proof.
  intros Hls Heol. induction Hls as [|l ls Hl Hls IH]; [reflexivity|].
  cbn [fmap list_fmap concat]. rewrite <- !app_assoc.
  rewrite translate_line; [rewrite IH; reflexivity|exact Hl|exact Heol|].
  intros ->. destruct ls as [|l' ls]; [exact I|].
  cbn [fmap list_fmap concat].
  apply Forall_cons in Hls as [Hl' _].
  destruct l' as [|c l']; [exact I|].
  apply Forall_cons in Hl' as [(_ & Hc & _) _]. cbn [app].
  destruct c as [|p]; [exact I|].
  do 4 (destruct p as [p|p|]; try exact I). done.
Qed.

Lemma lines_from_line (l rest : str) : ∀ cur,
  Forall (λ c, c ≠ 10) l →
  lines_from cur (l ++ 10 :: rest) = (rev cur ++ l ++ [10]) :: lines_from [] rest.
Proof.
  induction l as [|c l IH]; intros cur Hl; cbn [app lines_from].
  - rewrite N.eqb_refl. cbn [rev]. reflexivity.
  - apply Forall_cons in Hl as [Hc Hl].
    destruct (N.eqb_spec c 10) as [->|_]; [done|].
    rewrite IH by exact Hl. cbn [rev]. rewrite <- !app_assoc. reflexivity.
Qed.

Lemma lines_from_lines (ls : list str) :
  Forall plain_line ls →
  lines_from [] (concat ((λ l, l ++ [10]) <$> ls)) = (λ l, l ++ [10]) <$> ls.
Proof.
  induction 1 as [|l ls Hl _ IH]; [reflexivity|].
  cbn [fmap list_fmap concat]. rewrite <- app_assoc. cbn [app].
  rewrite lines_from_line, IH; [reflexivity|].
  eapply Forall_impl; [exact Hl|]. intros c (_ & Hc & _). exact Hc.
Qed.

Lemma encode_units_ok (s : str) :
  Forall (λ c, is_scalar c = true) s →
  ∃ bs, encode_units s = Ok bs ∧ decode_units LittleEndian bs = Ok s.
Proof. apply decode_encode_units. Qed.

(** X4: a report made of lines of encodable text, each ended by a
    newline, a carriage return and a newline, or a carriage return, and
    written as utf-16 behind a byte order mark, is read back as these lines,
    each ended by a single newline. *)
Theorem read_report_of_lines (ls : list str) (eol : str) :
  Forall plain_line ls → line_ending eol →
  ∃ content,
    encode_utf16 (concat ((λ l, l ++ eol) <$> ls)) = Ok content ∧
    read_report content = Ok ((λ l, l ++ [10]) <$> ls).
Proof.
  intros Hls Heol.
  destruct (encode_units_ok (concat ((λ l, l ++ eol) <$> ls)))
    as (bs & Hbs & Hdec).
  { apply Forall_concat, Forall_fmap. eapply Forall_impl; [exact Hls|].
    intros l Hl. cbn. apply Forall_app. split.
    - eapply Forall_impl; [exact Hl|]. intros c (Hc & _). exact Hc.
    - destruct Heol as [->|[->| ->]]; repeat constructor. }
  exists (0xFF :: 0xFE :: bs). split.
  - unfold encode_utf16. rewrite Hbs. reflexivity.
  - unfold read_report. cbn [decode_utf16_stream]. rewrite Hdec.
    cbn [fmap result_fmap]. unfold readlines.
    rewrite translate_lines, lines_from_lines by assumption. reflexivity.
Qed.

Lemma read_report_of_lines_windows :
  ∃ content,
    encode_utf16 (concat ((λ l, l ++ [13; 10]) <$> (lit <$> sample_dipole)))
      = Ok content ∧
    read_report content = Ok (file_lines sample_dipole).
Proof.
  destruct (read_report_of_lines (lit <$> sample_dipole) [13; 10])
    as (content & Henc & Hread).
  - unfold sample_dipole. cbn [fmap list_fmap].
    repeat (apply Forall_cons_2;
            [apply Forall_forall; intros c Hc; apply list_elem_of_In in Hc;
             vm_compute in Hc;
             repeat (destruct Hc as [<-|Hc]; [repeat split; discriminate|]);
             destruct Hc|]).
    apply Forall_nil_2.
  - right. left. reflexivity.
  - exists content. split; [exact Henc|]. rewrite Hread.
    unfold file_lines. rewrite <- list_fmap_compose. reflexivity.
Defined.

(** ** Reports that cannot be read *)

Lemma decode_utf16_stream_no_bom (content : list N) :
  content ≠ [] → has_bom content = false →
  ∃ e, decode_utf16_stream content = Raise e.
Proof.
  intros Hne Hbom. destruct content as [|b0 [|b1 r]]; [done|..].
  - destruct b0 as [|p]; [eexists; reflexivity|].
    do 8 (destruct p as [p|p|]; try (eexists; reflexivity)).
  - cbn [has_bom] in Hbom.
    destruct b0 as [|p]; [eexists; reflexivity|];
    do 8 (destruct p as [p|p|]; try (eexists; reflexivity));
    cbn in Hbom;
    (destruct b1 as [|q]; [eexists; reflexivity|];
     do 8 (destruct q as [q|q|]; try (eexists; reflexivity)); try discriminate Hbom).
Qed.

(** ** One molecule: what [orcanize] catches and what it lets through *)

(** X5: when RDKit builds the job and the program is started, [orcanize]
    returns whatever the reader does: the mapping, with a line in done.log,
    when [orca_reader] returns one; [None], with a line in undone.log, when
    [orca_reader] raises.  No exception of the reader leaves [orcanize]. *)
Theorem orcanize_catches_reader
    (fl : str → option bool) (w : world) (smiles : str) (nb : Z)
    (tr : list event) (text : str) :
  job_text w tr smiles = Ok text →
  launch w (tr ++ [WriteFile (fmt nb ++ lit ".inp") text]) (orca_argv smiles)
    = Ok () →
  ∃ dat log,
    orcanize fl w smiles nb tr =
      (Ok dat, tr ++ orcanize_events smiles nb text log) ∧
    ((∃ m, fst (orca_reader fl w smiles nb
                  (tr ++ [WriteFile (fmt nb ++ lit ".inp") text;
                          Exec (orca_argv smiles) false None])) = Ok m ∧
           dat = Some m ∧ log = lit "done.log") ∨
     (∃ e, fst (orca_reader fl w smiles nb
                  (tr ++ [WriteFile (fmt nb ++ lit ".inp") text;
                          Exec (orca_argv smiles) false None])) = Raise e ∧
           dat = None ∧ log = lit "undone.log")).
Proof.
  intros Hjob Hlaunch. rewrite orcanize_eq, Hjob. cbv zeta. rewrite Hlaunch.
  assert (Htr : (tr ++ [WriteFile (fmt nb ++ lit ".inp") text]) ++
                [Exec (orca_argv smiles) false None]
                = tr ++ [WriteFile (fmt nb ++ lit ".inp") text;
                         Exec (orca_argv smiles) false None])
    by (rewrite <- app_assoc; reflexivity).
  rewrite Htr.
  pose proof (orca_reader_trace fl w smiles nb
                (tr ++ [WriteFile (fmt nb ++ lit ".inp") text;
                        Exec (orca_argv smiles) false None])) as Hr.
  destruct (orca_reader fl w smiles nb _) as [[m|e] tr3] eqn:Hrd;
    cbn [snd] in Hr; subst tr3; cbn [fst].
  - exists (Some m), (lit "done.log"). split.
    + unfold orcanize_events. rewrite <- !app_assoc. reflexivity.
    + left. exists m. done.
  - exists None, (lit "undone.log"). split.
    + unfold orcanize_events. rewrite <- !app_assoc. reflexivity.
    + right. exists e. done.
Qed.

Lemma orcanize_catches_reader_missing_report :
  orcanize py_float_gt0 (sample_world []) (lit "CCO") 0 [] =
    (Ok None,
     orcanize_events (lit "CCO") 0 (lit "* xyz 0 1.0" ++ [10] ++ lit "CCO")
       (lit "undone.log")).
Proof.
  destruct (orcanize_catches_reader py_float_gt0 (sample_world []) (lit "CCO") 0 []
              (lit "* xyz 0 1.0" ++ [10] ++ lit "CCO") eq_refl eq_refl)
    as (dat & log & Hrun & [(m & Hm & _)|(e & _ & -> & ->)]).
  - vm_compute in Hm. discriminate Hm.
  - exact Hrun.
Defined.

(** X6: when [orcanize] raises, the exception is RDKit's, and then nothing
    at all was done, or it is the launcher's, and then only the job file
    was written; in both cases no report was opened, no program was started
    and no line was appended to either log. *)
Theorem orcanize_raises
    (fl : str → option bool) (w : world) (smiles : str) (nb : Z)
    (tr tr' : list event) (e : exn) :
  orcanize fl w smiles nb tr = (Raise e, tr') →
  ((job_text w tr smiles = Raise e ∧ tr' = tr) ∨
   (∃ text,
      job_text w tr smiles = Ok text ∧
      launch w (tr ++ [WriteFile (fmt nb ++ lit ".inp") text]) (orca_argv smiles)
        = Raise e ∧
      tr' = tr ++ [WriteFile (fmt nb ++ lit ".inp") text])) ∧
  ∃ new,
    tr' = tr ++ new ∧
    (∀ path, appended path new = []) ∧
    (∀ path, ReadFile path ∉ new) ∧
    (∀ argv shell stdout, Exec argv shell stdout ∉ new).
Proof.
  rewrite orcanize_eq. intros Hrun.
  destruct (job_text w tr smiles) as [text|e0] eqn:Hjob.
  - cbv zeta in Hrun.
    destruct (launch w _ (orca_argv smiles)) as [[]|e1] eqn:Hlaunch.
    + destruct (orca_reader fl w smiles nb _) as [[m|e2] tr3]; discriminate Hrun.
    + injection Hrun as -> <-. split.
      * right. exists text. done.
      * eexists. split; [reflexivity|]. split; [reflexivity|].
        split; intros; intros Hin; apply list_elem_of_singleton in Hin;
          discriminate Hin.
  - injection Hrun as -> <-. split.
    + left. done.
    + exists []. rewrite app_nil_r. split; [reflexivity|]. split; [reflexivity|].
      split; intros; apply not_elem_of_nil.
Qed.

Lemma orcanize_raises_rejected :
  job_text rejecting_world [] (lit "C1CC") = Raise RDKitError ∧
  snd (orcanize py_float_gt0 rejecting_world (lit "C1CC") 1 []) = [].
Proof.
  destruct (orcanize_raises py_float_gt0 rejecting_world (lit "C1CC") 1 []
              [] RDKitError) as [[[Hjob Htr]|(text & Hjob & _)] _].
  - vm_compute. reflexivity.
  - split; [exact Hjob|]. vm_compute. reflexivity.
  - vm_compute in Hjob. discriminate Hjob.
Defined.

(** X7: a molecule whose report file is missing, or is not empty and does
    not start with a utf-16 byte order mark - a report written as plain
    ASCII, for one - is not parsed: [orcanize] returns [None] and appends it
    to undone.log, whatever the report says. *)
Theorem orcanize_unreadable_report
    (fl : str → option bool) (w : world) (smiles : str) (nb : Z)
    (tr : list event) (text : str) :
  job_text w tr smiles = Ok text →
  launch w (tr ++ [WriteFile (fmt nb ++ lit ".inp") text]) (orca_argv smiles)
    = Ok () →
  (file_at w (tr ++ [WriteFile (fmt nb ++ lit ".inp") text;
                     Exec (orca_argv smiles) false None])
           (fmt nb ++ lit ".out") = None ∨
   ∃ content,
     file_at w (tr ++ [WriteFile (fmt nb ++ lit ".inp") text;
                       Exec (orca_argv smiles) false None])
             (fmt nb ++ lit ".out") = Some content ∧
     content ≠ [] ∧ has_bom content = false) →
  orcanize fl w smiles nb tr =
    (Ok None, tr ++ orcanize_events smiles nb text (lit "undone.log")).
Proof.
  intros Hjob Hlaunch Hfile. rewrite orcanize_eq, Hjob. cbv zeta.
  rewrite Hlaunch.
  assert (Htr : (tr ++ [WriteFile (fmt nb ++ lit ".inp") text]) ++
                [Exec (orca_argv smiles) false None]
                = tr ++ [WriteFile (fmt nb ++ lit ".inp") text;
                         Exec (orca_argv smiles) false None])
    by (rewrite <- app_assoc; reflexivity).
  rewrite Htr. unfold orca_reader, orcanize_events.
  destruct Hfile as [Hf|(content & Hf & Hne & Hbom)]; rewrite Hf.
  - rewrite <- !app_assoc. reflexivity.
  - unfold read_report.
    destruct (decode_utf16_stream_no_bom content Hne Hbom) as [e He].
    rewrite He. cbn [fmap result_fmap mbind result_bind].
    rewrite <- !app_assoc. reflexivity.
Qed.

Lemma orcanize_unreadable_report_ascii :
  orcanize py_float_gt0
    (sample_world [("0.out", ascii_file (sample_orbitals ++ sample_dipole))])
    (lit "CCO") 0 [] =
    (Ok None,
     orcanize_events (lit "CCO") 0 (lit "* xyz 0 1.0" ++ [10] ++ lit "CCO")
       (lit "undone.log")).
Proof.
  apply (orcanize_unreadable_report py_float_gt0
           (sample_world [("0.out", ascii_file (sample_orbitals ++ sample_dipole))])
           (lit "CCO") 0 [] (lit "* xyz 0 1.0" ++ [10] ++ lit "CCO")
           eq_refl eq_refl).
  right. exists (ascii_file (sample_orbitals ++ sample_dipole)).
  split; [vm_compute; reflexivity|]. split; [discriminate|reflexivity].
Defined.

(** ** Lines the loop cannot read *)

Lemma item_short {A} (l : list A) (i : nat) :
  (length l ≤ i)%nat → item l i = Raise IndexError.
Proof.
  intros H. unfold item. rewrite (lookup_ge_None_2 l i H). reflexivity.
Qed.

Lemma unpack3_short (l : list str) :
  (length l < 7)%nat → unpack3 (take 3 (drop 4 l)) = Raise ValueError.
Proof.
  intros H. do 7 (destruct l as [|? l]; [reflexivity|]). cbn in H. lia.
Qed.

Section Unreadable.

Variable fl : str → option bool.

(** While no line contains "E(Eh)", the table stays unarmed and the four
    candidates stay as they are. *)
Lemma step_keeps_candidates line st st' :
  orbitals_start st = false → contains (lit "E(Eh)") line = false →
  step fl st line = Ok st' →
  orbitals_start st' = false ∧
  homo_Eh st' = homo_Eh st ∧ homo_eV st' = homo_eV st ∧
  lumo_Eh st' = lumo_Eh st ∧ lumo_eV st' = lumo_eV st.
Proof.
  intros Hs Hc Hstep.
  apply (step_preserves fl
           (λ s, orbitals_start s = false ∧
                 homo_Eh s = homo_Eh st ∧ homo_eV s = homo_eV st ∧
                 lumo_Eh s = lumo_Eh st ∧ lumo_eV s = lumo_eV st) line)
    with (st := st); try done.
  - congruence.
  - intros s s' [Hs' _] Hb. rewrite Hs', andb_false_r in Hb. discriminate.
Qed.

Lemma scan_keeps_candidates lines : ∀ st st',
  orbitals_start st = false →
  Forall (λ l, contains (lit "E(Eh)") l = false) lines →
  scan fl st lines = Ok st' →
  orbitals_start st' = false ∧
  homo_Eh st' = homo_Eh st ∧ homo_eV st' = homo_eV st ∧
  lumo_Eh st' = lumo_Eh st ∧ lumo_eV st' = lumo_eV st.
Proof.
  induction lines as [|line rest IH]; intros st st' Hs Hall H.
  - injection H as <-. done.
  - cbn [scan] in H. apply bind_Ok in H as (st1 & H1 & H).
    apply Forall_cons in Hall as [Hl Hrest].
    destruct (step_keeps_candidates line st st1 Hs Hl H1)
      as (Hs1 & E1 & E2 & E3 & E4).
    destruct (IH st1 st' Hs1 Hrest H) as (Hs' & F1 & F2 & F3 & F4).
    repeat split; congruence.
Qed.

(** The state in which the rows of a table are read. *)
Lemma scan_to_rows st hdr mid cols :
  orbitals_start st = false →
  contains (lit "ORBITAL ENERGIES") hdr = true →
  Forall (λ l, quiet l = true) mid →
  contains (lit "ORBITAL ENERGIES") cols = false →
  contains (lit "E(Eh)") cols = true →
  scan fl st (hdr :: mid ++ [cols]) =
    Ok (set_orbitals_start true (set_parse true st)).
Proof.
  intros Hs Hhdr Hmid Hc1 Hc2. cbn [scan].
  rewrite (step_header fl st hdr Hhdr). cbn [mbind result_bind].
  rewrite scan_app, (scan_quiet_idle fl mid)
    by (done || (cbn; rewrite Hs; reflexivity)).
  cbn [mbind result_bind scan]. rewrite (step_columns fl _ cols Hc1 Hc2).
  reflexivity.
Qed.

Lemma scan_occupied_rows rows : ∀ st,
  parse st = true → orbitals_start st = true →
  Forall (orbital_line fl true) rows →
  ∃ st', scan fl st rows = Ok st' ∧ parse st' = true ∧ orbitals_start st' = true.
Proof.
  induction rows as [|row rows IH]; intros st Hp Hs Hall.
  - exists st. done.
  - apply Forall_cons in Hall as [Hrow Hall]. cbn [scan].
    rewrite (step_quiet fl st row) by apply Hrow. rewrite Hp, Hs. cbn [andb].
    rewrite (orbital_row_occupied fl st row Hrow). cbn [mbind result_bind].
    apply IH; [exact Hp|exact Hs|exact Hall].
Qed.

End Unreadable.



(** X9: while the rows of an orbital table are read, a line without a
    search phrase that is not a full row makes the reader raise:
    [IndexError] when it has fewer than two tokens, [ValueError] when
    [float] refuses its second token, [IndexError] when it has two or three
    tokens of which [float] accepts the second. *)
Theorem read_props_broken_row
    (fl : str → option bool) (smiles : str)
    (pre : list str) (st : state) (hdr : str) (mid : list str) (cols : str)
    (rows : list str) (bad : str) (post : list str) :
  scan fl (initial smiles) pre = Ok st → orbitals_start st = false →
  hit "ORBITAL ENERGIES" hdr = true →
  Forall (λ l, quiet l = true) mid →
  hit "ORBITAL ENERGIES" cols = false → hit "E(Eh)" cols = true →
  Forall (orbital_line fl true) rows →
  quiet bad = true →
  ((length (split bad) < 2)%nat →
   read_props fl smiles (pre ++ (hdr :: mid ++ [cols]) ++ rows ++ bad :: post)
     = Raise IndexError) ∧
  ((2 ≤ length (split bad))%nat → fl (tok bad 1) = None →
   read_props fl smiles (pre ++ (hdr :: mid ++ [cols]) ++ rows ++ bad :: post)
     = Raise ValueError) ∧
  ((2 ≤ length (split bad) < 4)%nat → fl (tok bad 1) ≠ None →
   read_props fl smiles (pre ++ (hdr :: mid ++ [cols]) ++ rows ++ bad :: post)
     = Raise IndexError).
Proof.
  intros Hscan Hs Hhdr Hmid Hc1 Hc2 Hrows Hq.
  destruct (scan_occupied_rows fl rows (set_orbitals_start true (set_parse true st))
              eq_refl eq_refl Hrows) as (st1 & Hst1 & Hp1 & Hs1).
  assert (E : read_props fl smiles
                (pre ++ (hdr :: mid ++ [cols]) ++ rows ++ bad :: post)
              = props <$> (orbital_row fl st1 bad ≫= λ s, scan fl s post)).
  { unfold read_props. rewrite scan_app, Hscan. cbn [mbind result_bind].
    rewrite scan_app, (scan_to_rows fl st hdr mid cols Hs Hhdr Hmid Hc1 Hc2).
    cbn [mbind result_bind]. rewrite scan_app, Hst1. cbn [mbind result_bind scan].
    rewrite (step_quiet fl st1 bad Hq), Hp1, Hs1. reflexivity. }
  rewrite E. unfold orbital_row. split; [|split].
  - intros Hn. rewrite (item_short (split bad) 1) by lia. reflexivity.
  - intros Hn Hfl. rewrite (item_tok bad 1) by lia. cbn [mbind result_bind].
    unfold occupied. rewrite Hfl. reflexivity.
  - intros Hn Hfl. rewrite (item_tok bad 1) by lia. cbn [mbind result_bind].
    unfold occupied. destruct (fl (tok bad 1)) as [b|]; [|done].
    cbn [mbind result_bind].
    destruct (decide (length (split bad) = 2%nat)) as [H2|H2].
    + rewrite (item_short (split bad) 2) by lia. destruct b; reflexivity.
    + rewrite (item_tok bad 2) by lia. cbn [mbind result_bind].
      rewrite (item_short (split bad) 3) by lia. destruct b; reflexivity.
Qed.

Lemma read_props_broken_row_scenario :
  read_props py_float_gt0 (lit "CCO") (file_lines sample_cut_table)
    = Raise IndexError.
Proof.
  destruct (read_props_broken_row py_float_gt0 (lit "CCO") [] (initial (lit "CCO"))
              (lit "ORBITAL ENERGIES" ++ [10]) []
              (lit "  NO   OCC   E(Eh)   E(eV)" ++ [10])
              (file_lines ["0 2.0000 -0.123 -3.35"]%string)
              (lit "1 2.0000 -0.1" ++ [10]) [])
    as (_ & _ & H).
  - reflexivity.
  - reflexivity.
  - vm_compute. reflexivity.
  - apply Forall_nil_2.
  - vm_compute. reflexivity.
  - vm_compute. reflexivity.
  - apply Forall_cons_2; [|apply Forall_nil_2].
    split; [|split]; vm_compute; [reflexivity|lia|reflexivity].
  - vm_compute. reflexivity.
  - apply H; [vm_compute; lia|vm_compute; discriminate].
Defined.

(** X10: once a part is open, a line that contains the phrase of a
    property but has fewer tokens than the loop indexes makes the reader
    raise - [IndexError], or [ValueError] for the rotational constants,
    whose three values are unpacked from a slice. *)
Theorem read_props_short_line
    (fl : str → option bool) (smiles : str)
    (pre : list str) (st : state) (line : str) (post : list str)
    (p : string) (n : nat) :
  scan fl (initial smiles) pre = Ok st →
  parse st = true → orbitals_start st = false →
  (p, n) ∈ needs → only p line = true →
  (length (split line) < n)%nat →
  read_props fl smiles (pre ++ line :: post) = Raise (short_line_error p).
Proof.
  intros Hscan Hp Hs Hin Ho Hn.
  unfold read_props. rewrite scan_app, Hscan. cbn [mbind result_bind scan].
  assert (E : step fl st line = Raise (short_line_error p));
    [|rewrite E; reflexivity].
  rewrite step_is_literal.
  unfold step_literal, extract_literal, open_section_literal.
  unfold needs in Hin.
  repeat (apply elem_of_cons in Hin as [[= -> ->]|Hin]);
    [..|apply elem_of_nil in Hin; destruct Hin];
    hits Ho; rewrite Hs; run_line; rewrite ?Hp; run_line.
  - rewrite (item_short (split line) 3) by lia. reflexivity.
  - rewrite (item_short (split line) 3) by lia. reflexivity.
  - rewrite (item_short (split line) 3) by lia. reflexivity.
  - rewrite (item_short (split line) 3) by lia. reflexivity.
  - rewrite (item_short (split line) 4) by lia. reflexivity.
  - rewrite (item_short (split line) 5) by lia. reflexivity.
  - rewrite unpack3_short by lia. reflexivity.
Qed.

Lemma read_props_short_line_scenario :
  read_props py_float_gt0 (lit "O") (file_lines sample_cut_dipole)
    = Raise IndexError.
Proof.
  apply (read_props_short_line py_float_gt0 (lit "O")
           (file_lines ["DIPOLE MOMENT"]%string)
           (set_parse true (initial (lit "O")))
           (lit "Magnitude (Debye) :" ++ [10]) []
           "Magnitude (Debye)" 4).
  - vm_compute. reflexivity.
  - reflexivity.
  - reflexivity.
  - closed.
  - vm_compute. reflexivity.
  - vm_compute. lia.
Defined.

(** ** Values that outlive their part *)



(** X12: the parts of the report share one flag.  While [orbitals_start]
    is off, a polarizability line met in the thermochemistry part is read
    all the same, and it closes the part: the thermal energy line after it
    is passed over. *)
Theorem scan_one_flag
    (fl : str → option bool) (st : state) (opener polar thermal : str) :
  orbitals_start st = false →
  only "INNER ENERGY" opener = true →
  only "Isotropic polarizability" polar = true →
  (4 ≤ length (split polar))%nat →
  only "Total thermal energy" thermal = true →
  scan fl st [opener; polar; thermal] =
    Ok (set_parse false (assign "polarizability" (tok polar 3)
                           (set_parse true st))).
Proof.
  intros Hs Hopen Hpol Hn Hth. cbn [scan].
  rewrite (step_opener fl "INNER ENERGY" st opener (or_intror eq_refl) Hopen Hs).
  cbn [mbind result_bind].
  rewrite (step_polarizability fl (set_parse true st) polar Hpol eq_refl Hs Hn).
  cbn [mbind result_bind].
  rewrite step_is_literal.
  unfold step_literal, extract_literal, open_section_literal. hits Hth.
  run_line. rewrite ?Hs. run_line. reflexivity.
Qed.

Lemma scan_one_flag_scenario :
  read_props py_float_gt0 (lit "O") (file_lines sample_interrupted_thermo)
    = Ok (<[lit "polarizability" := lit "12.5"]> {[lit "smiles" := lit "O"]}).
Proof.
  unfold read_props.
  change (file_lines sample_interrupted_thermo)
    with [lit "INNER ENERGY" ++ [10];
          lit "Isotropic polarizability : 12.5" ++ [10];
          lit "Total thermal energy                  -154.8 Eh" ++ [10]].
  rewrite (scan_one_flag py_float_gt0 (initial (lit "O"))
             (lit "INNER ENERGY" ++ [10])
             (lit "Isotropic polarizability : 12.5" ++ [10])
             (lit "Total thermal energy                  -154.8 Eh" ++ [10])).
  - reflexivity.
  - reflexivity.
  - vm_compute. reflexivity.
  - vm_compute. reflexivity.
  - vm_compute. lia.
  - vm_compute. reflexivity.
Defined.

(** ** Values are copied, not computed *)

Lemma split_from_tokens (s : str) : ∀ cur v,
  Forall (λ c, isspace c = false) cur → v ∈ split_from cur s →
  v ≠ [] ∧ Forall (λ c, isspace c = false) v.
Proof.
  assert (Hrun : ∀ c cur, Forall (λ c, isspace c = false) (c :: cur) →
            rev (c :: cur) ≠ [] ∧ Forall (λ c, isspace c = false) (rev (c :: cur))).
  { intros c cur Hcur. split.
    - cbn [rev]. intros E. apply app_eq_nil in E as [_ E]. discriminate.
    - apply Forall_rev. exact Hcur. }
  induction s as [|c s IH]; intros cur v Hcur Hin; cbn [split_from] in Hin.
  - destruct cur as [|c0 cur]; [apply elem_of_nil in Hin; destruct Hin|].
    apply list_elem_of_singleton in Hin as ->. apply Hrun, Hcur.
  - destruct (isspace c) eqn:Hc.
    + destruct cur as [|c0 cur]; [apply (IH [] v); [constructor|exact Hin]|].
      apply elem_of_cons in Hin as [->|Hin]; [apply Hrun, Hcur|].
      apply (IH [] v); [constructor|exact Hin].
    + apply (IH (c :: cur) v); [|exact Hin]. constructor; assumption.
Qed.

Ltac listed :=
  repeat first [ apply list_elem_of_here | apply list_elem_of_further ].

Lemma item_elem_of {A} (l : list A) (i : nat) (x : A) :
  item l i = Ok x → x ∈ l.
Proof.
  unfold item. destruct (l !! i) as [y|] eqn:E; [|discriminate].
  intros [= <-]. apply (list_elem_of_lookup_2 l i y E).
Qed.

Lemma unpack3_elem_of (l : list str) (a b c : str) :
  unpack3 (take 3 (drop 4 l)) = Ok (a, b, c) → a ∈ l ∧ b ∈ l ∧ c ∈ l.
Proof.
  intros H.
  assert (Hsub : ∀ x, x ∈ take 3 (drop 4 l) → x ∈ l).
  { intros x Hx. apply (subseteq_drop 4 l), (subseteq_take 3 _), Hx. }
  destruct (take 3 (drop 4 l)) as [|a' [|b' [|c' [|d' r]]]]; try discriminate H.
  injection H as <- <- <-.
  repeat split; apply Hsub; listed.
Qed.

Section Copied.

Variable fl : str → option bool.
Variable T : str → Prop.

Lemma values_in_assign key v st :
  T v → values_in T st → values_in T (assign key v st).
Proof.
  intros Hv [Hp Hc]. split; [|exact Hc].
  intros k v' Hk Hne. cbn [assign props] in Hk.
  destruct (decide (k = lit key)) as [->|Hkey].
  - rewrite lookup_insert_eq in Hk. injection Hk as <-. exact Hv.
  - rewrite lookup_insert_ne in Hk by congruence. apply (Hp k v' Hk Hne).
Qed.

Lemma values_in_flags st b :
  values_in T st →
  values_in T (set_parse b st) ∧ values_in T (set_orbitals_start b st).
Proof. intros H. split; exact H. Qed.

Section Line.

Variable line : str.
Hypothesis line_tokens : ∀ v, v ∈ split line → T v.

Lemma values_in_orbital_row st st' :
  values_in T st → orbital_row fl st line = Ok st' → values_in T st'.
Proof.
  unfold orbital_row. intros HQ H.
  apply bind_Ok in H as (occ & _ & H).
  apply bind_Ok in H as (pos & _ & H).
  apply bind_Ok in H as (st1 & H1 & H).
  assert (HQ1 : values_in T st1).
  { destruct pos;
      apply bind_Ok in H1 as (e & He & H1);
      apply bind_Ok in H1 as (v & Hv & H1);
      injection H1 as <-;
      apply item_elem_of, line_tokens in He;
      apply item_elem_of, line_tokens in Hv;
      destruct HQ as [Hp Hc]; (split; [exact Hp|]);
      intros x Hx; cbn in Hx;
      (apply elem_of_cons in Hx as [[= ->]|Hx]; [assumption|]);
      (apply elem_of_cons in Hx as [[= ->]|Hx]; [assumption|]);
      first [ apply Hc; do 2 apply list_elem_of_further; exact Hx
            | apply elem_of_cons in Hx as [[= ->]|Hx]; [assumption|];
              apply elem_of_cons in Hx as [[= ->]|Hx]; [assumption|];
              apply elem_of_nil in Hx; destruct Hx ]. }
  clear H1 HQ.
  apply bind_Ok in H as (le & Hle & H).
  apply bind_Ok in H as (lv & Hlv & H).
  apply bind_Ok in H as (he & Hhe & H).
  apply bind_Ok in H as (hv & Hhv & H).
  injection H as <-.
  destruct (lumo_Eh st1) as [x1|] eqn:E1; [injection Hle as ->|discriminate].
  destruct (lumo_eV st1) as [x2|] eqn:E2; [injection Hlv as ->|discriminate].
  destruct (homo_Eh st1) as [x3|] eqn:E3; [injection Hhe as ->|discriminate].
  destruct (homo_eV st1) as [x4|] eqn:E4; [injection Hhv as ->|discriminate].
  pose proof HQ1 as [_ Hc]. rewrite E1, E2, E3, E4 in Hc.
  repeat apply values_in_assign; try exact HQ1; apply Hc; listed.
Qed.

Lemma values_in_extract p key i st st' :
  values_in T st → extract_literal p key i st line = Ok st' → values_in T st'.
Proof.
  unfold extract_literal. intros HQ H.
  destruct (parse st && contains (lit p) line); [|injection H as <-; exact HQ].
  apply bind_Ok in H as (v & Hv & [= <-]).
  apply values_in_assign; [|exact HQ].
  apply line_tokens, (item_elem_of _ i), Hv.
Qed.

Lemma values_in_open p st :
  values_in T st → values_in T (open_section_literal p st line).
Proof.
  unfold open_section_literal. intros HQ.
  destruct (contains (lit p) line); exact HQ.
Qed.

Lemma values_in_step st st' :
  values_in T st → step fl st line = Ok st' → values_in T st'.
Proof.
  intros HQ. rewrite step_is_literal. unfold step_literal.
  destruct (contains (lit "ORBITAL ENERGIES") line); [intros [= <-]; exact HQ|].
  destruct (contains (lit "E(Eh)") line); [intros [= <-]; exact HQ|].
  intros H.
  apply bind_Ok in H as (st1 & H1 & H).
  assert (HQ1 : values_in T st1).
  { destruct (parse st && orbitals_start st).
    - apply (values_in_orbital_row st st1 HQ H1).
    - injection H1 as <-. exact HQ. }
  clear H1 HQ.
  apply (values_in_open "DIPOLE MOMENT") in HQ1.
  apply bind_Ok in H as (st2 & H2 & H).
  apply values_in_extract in H2; [|exact HQ1]. clear HQ1.
  apply bind_Ok in H as (st3 & H3 & H).
  assert (HQ3 : values_in T st3).
  { destruct (parse st2 && contains (lit "Isotropic polarizability") line);
      [|injection H3 as <-; exact H2].
    apply bind_Ok in H3 as (v & Hv & [= <-]).
    apply (values_in_flags _ false), values_in_assign; [|exact H2].
    apply line_tokens, (item_elem_of _ 3), Hv. }
  clear H3 H2.
  apply (values_in_open "INNER ENERGY") in HQ3.
  apply bind_Ok in H as (st4 & H4 & H).
  apply values_in_extract in H4; [|exact HQ3]. clear HQ3.
  apply bind_Ok in H as (st5 & H5 & H).
  apply values_in_extract in H5; [|exact H4]. clear H4.
  apply bind_Ok in H as (st6 & H6 & H).
  apply values_in_extract in H6; [|exact H5]. clear H5.
  apply bind_Ok in H as (st7 & H7 & H).
  apply values_in_extract in H7; [|exact H6]. clear H6.
  destruct (parse st7 && contains (lit "Rotational constants in cm-1:") line);
    [|injection H as <-; exact H7].
  apply bind_Ok in H as ([[a b] c] & Habc & [= <-]).
  apply unpack3_elem_of in Habc as (Ha & Hb & Hc).
  repeat apply values_in_assign; try exact H7; apply line_tokens; assumption.
Qed.

End Line.

Lemma values_in_scan output : ∀ st st',
  (∀ line v, line ∈ output → v ∈ split line → T v) →
  values_in T st → scan fl st output = Ok st' → values_in T st'.
Proof.
  induction output as [|line rest IH]; intros st st' Hall HQ H.
  - injection H as <-. exact HQ.
  - cbn [scan] in H. apply bind_Ok in H as (st1 & H1 & H).
    apply (IH st1 st'); [intros l v Hl; apply Hall; listed; exact Hl| |exact H].
    apply (values_in_step line) with (st := st); [|exact HQ|exact H1].
    intros v. apply Hall. listed.
Qed.

End Copied.

(** X13: the reader copies and never computes.  Every value of the mapping
    it returns, other than the identifier, is one of the pieces
    [line.split()] gives for some line of the report, as it stands there:
    not empty and free of white space. *)
Theorem read_props_values_are_tokens
    (fl : str → option bool) (smiles : str) (output : list str)
    (m : gmap (list N) (list N)) (k v : str) :
  read_props fl smiles output = Ok m →
  m !! k = Some v → k ≠ lit "smiles" →
  token_of output v ∧ v ≠ [] ∧ Forall (λ c, isspace c = false) v.
Proof.
  unfold read_props. intros H Hk Hne.
  destruct (scan fl (initial smiles) output) as [st|e] eqn:Hscan;
    [|discriminate H].
  injection H as <-.
  assert (Htok : token_of output v).
  { apply (values_in_scan fl (token_of output) output (initial smiles) st)
      in Hscan as [Hp _].
    - apply (Hp k v Hk Hne).
    - intros line x Hl Hx. exists line. split; assumption.
    - split.
      + intros k' v' Hk'. cbn [initial props] in Hk'.
        apply lookup_singleton_Some in Hk' as [<- _]. done.
      + intros x Hx. cbn in Hx.
        repeat (apply elem_of_cons in Hx as [[=]|Hx]).
        apply elem_of_nil in Hx. destruct Hx. }
  split; [exact Htok|].
  destruct Htok as (line & _ & Hv).
  apply (split_from_tokens line [] v); [constructor|exact Hv].
Qed.

Lemma read_props_values_are_tokens_scenario :
  token_of (file_lines sample_dipole) (lit "1.85") ∧
  lit "1.85" ≠ [] ∧ Forall (λ c, isspace c = false) (lit "1.85").
Proof.
  apply (read_props_values_are_tokens py_float_gt0 (lit "O")
           (file_lines sample_dipole) sample_dipole_props
           (lit "Dipole Moment") (lit "1.85")).
  - vm_compute. reflexivity.
  - vm_compute. reflexivity.
  - intros E. apply lit_inj in E. discriminate.
Defined.

(** ** Lines of the logs *)

(** X14: a log line names one molecule.  Two lines [{nb} {smiles}] are the
    same text exactly when they have the same Job Handle and the same
    identifier, whatever the identifier holds. *)
Theorem log_line_inj (a b : Z) (s t : str) :
  log_line a s = log_line b t ↔ a = b ∧ s = t.
Proof.
  split; [|intros [-> ->]; reflexivity].
  intros E.
  assert (Hab : a = b).
  { apply fmt_inj. rewrite <- (handle_of_log_line a s), E.
    apply handle_of_log_line. }
  subst b. split; [reflexivity|].
  unfold log_line in E.
  apply app_inv_head, app_inv_head, app_inv_tail in E. exact E.
Qed.

(** ** What a batch does to the outside *)

Lemma batch_event_mono save (ps qs : list (Z * str)) e :
  (∀ p, p ∈ ps → p ∈ qs) → batch_event save ps e → batch_event save qs e.
Proof.
  intros Hsub. destruct e; cbn [batch_event]; try exact (λ H, H);
    intros (p & Hp & H); exists p; (split; [apply Hsub, Hp|exact H]).
Qed.

Section BatchEvents.

Variable fl : str → option bool.
Variable w : world.

Lemma orcanize_batch_events save smiles nb tr :
  ∃ new, snd (orcanize fl w smiles nb tr) = tr ++ new ∧
         Forall (batch_event save [(nb, smiles)]) new.
Proof.
  assert (Hin : (nb, smiles) ∈ [(nb, smiles)]) by apply list_elem_of_here.
  assert (Hev : ∀ text log,
            log = lit "done.log" ∨ log = lit "undone.log" →
            Forall (batch_event save [(nb, smiles)])
                   (orcanize_events smiles nb text log)).
  { intros text log Hlog. unfold orcanize_events.
    repeat apply Forall_cons_2; [..|apply Forall_nil_2];
      exists (nb, smiles); (split; [exact Hin|]); try done. }
  destruct (orcanize_cases fl w smiles nb tr)
    as [(e & H)|[(text & e & H)|[(text & m & _ & H)|(text & e & _ & H)]]];
    rewrite H; cbn [snd].
  - exists []. rewrite app_nil_r. split; [reflexivity|apply Forall_nil_2].
  - eexists. split; [reflexivity|].
    apply Forall_cons_2; [|apply Forall_nil_2].
    exists (nb, smiles). split; [exact Hin|reflexivity].
  - eexists. split; [reflexivity|]. apply Hev. left. reflexivity.
  - eexists. split; [reflexivity|]. apply Hev. right. reflexivity.
Qed.

Lemma for_each_batch_events save pairs : ∀ outdata tr,
  ∃ new, snd (for_each fl w save pairs outdata tr) = tr ++ new ∧
         Forall (batch_event save pairs) new.
Proof.
  induction pairs as [|[nb smiles] rest IH]; intros outdata tr.
  - exists []. rewrite app_nil_r. split; [reflexivity|apply Forall_nil_2].
  - rewrite for_each_cons.
    destruct (orcanize_batch_events save smiles nb
                (tr ++ [PrintLine (log_line nb smiles)])) as (new1 & H1 & Hnew1).
    assert (Hhead : Forall (batch_event save ((nb, smiles) :: rest))
                      (PrintLine (log_line nb smiles) :: new1)).
    { apply Forall_cons_2.
      - exists (nb, smiles). split; [apply list_elem_of_here|reflexivity].
      - apply (Forall_impl _ _ _ Hnew1). intros e.
        apply batch_event_mono. intros p Hp.
        apply list_elem_of_singleton in Hp as ->. apply list_elem_of_here. }
    destruct (orcanize fl w smiles nb _) as [[dat|e] tr1]; cbn [snd] in H1;
      subst tr1.
    + cbv zeta.
      set (outdata' := append outdata (DataFrame dat)).
      set (csv := if save then [ToCsv (lit "orkanized.csv") outdata'] else []).
      assert (Htr : (if save
                     then ((tr ++ [PrintLine (log_line nb smiles)]) ++ new1) ++
                          [ToCsv (lit "orkanized.csv") outdata']
                     else (tr ++ [PrintLine (log_line nb smiles)]) ++ new1)
                    = tr ++ (PrintLine (log_line nb smiles) :: new1) ++ csv).
      { unfold csv. destruct save; rewrite <- ?app_assoc; [reflexivity|].
        rewrite app_nil_r. reflexivity. }
      rewrite Htr.
      destruct (IH outdata' (tr ++ (PrintLine (log_line nb smiles) :: new1) ++ csv))
        as (new2 & -> & Hnew2).
      exists (((PrintLine (log_line nb smiles) :: new1) ++ csv) ++ new2).
      split; [rewrite <- !app_assoc; reflexivity|].
      apply Forall_app_2; [apply Forall_app_2; [exact Hhead|]|].
      * unfold csv. destruct save; [|apply Forall_nil_2].
        apply Forall_cons_2; [|apply Forall_nil_2]. split; reflexivity.
      * apply (Forall_impl _ _ _ Hnew2). intros e.
        apply batch_event_mono. intros p Hp. apply list_elem_of_further, Hp.
    + exists (PrintLine (log_line nb smiles) :: new1).
      split; [rewrite <- app_assoc; reflexivity|exact Hhead].
Qed.

End BatchEvents.

(** X15: whatever comes of a batch - completed or cut short by an
    exception - everything it does to the outside belongs to one of the
    submitted molecules under its Job Handle: printing its line, writing
    [{nb}.inp], starting orca on [{smiles}.inp], reading [{nb}.out],
    appending its line to done.log or undone.log.  The only other event is
    saving the table to orkanized.csv, and only when [save] is set. *)
Theorem batch_events
    (fl : str → option bool) (w : world) (molecules : list str) (save : bool)
    (tr : list event) :
  ∃ new,
    snd (orcanize_many fl w molecules save tr) = tr ++ new ∧
    Forall (batch_event save (enumerate molecules)) new.
Proof. unfold orcanize_many. apply for_each_batch_events. Qed.

(** ** A batch cut short *)

Lemma enumerate_split {A} (l : list A) before nb x after :
  enumerate l = before ++ (nb, x) :: after →
  nb = Z.of_nat (length before) ∧ l !! length before = Some x ∧
  before = enumerate (take (length before) l).
Proof.
  intros E.
  assert (Hk : enumerate l !! length before = Some (nb, x)).
  { rewrite E. apply list_lookup_middle. reflexivity. }
  rewrite enumerate_lookup in Hk.
  destruct (l !! length before) as [y|] eqn:Hy; [|discriminate Hk].
  injection Hk as <- <-. split; [reflexivity|]. split; [reflexivity|].
  apply list_eq. intros i. rewrite enumerate_lookup.
  destruct (decide (i < length before)%nat) as [Hi|Hi].
  - rewrite lookup_take_lt by exact Hi.
    rewrite <- enumerate_lookup, E. symmetry. apply lookup_app_l, Hi.
  - rewrite lookup_take_ge by lia. apply lookup_ge_None_2. lia.
Qed.

Section Aborted.

Variable fl : str → option bool.
Variable w : world.

(** The loop raises when one call of [orcanize] does, after the calls
    before it have returned. *)
Lemma for_each_raise_split save pairs : ∀ outdata tr e tr',
  for_each fl w save pairs outdata tr = (Raise e, tr') →
  ∃ before nb smiles after t tr1,
    pairs = before ++ (nb, smiles) :: after ∧
    for_each fl w save before outdata tr = (Ok t, tr1) ∧
    orcanize fl w smiles nb (tr1 ++ [PrintLine (log_line nb smiles)])
      = (Raise e, tr').
Proof.
  induction pairs as [|[nb smiles] rest IH]; intros outdata tr e tr' H.
  - discriminate H.
  - rewrite for_each_cons in H.
    destruct (orcanize fl w smiles nb _) as [[dat|e0] tr0] eqn:Horc.
    + cbv zeta in H.
      apply IH in H as (before & nb' & s' & after & t & tr1 & -> & Hpre & Hr).
      exists ((nb, smiles) :: before), nb', s', after, t, tr1.
      split; [reflexivity|]. split; [|exact Hr].
      rewrite for_each_cons, Horc. exact Hpre.
    + injection H as <- <-.
      exists [], nb, smiles, rest, outdata, tr.
      split; [reflexivity|]. split; [reflexivity|exact Horc].
Qed.

End Aborted.

(** X16: a batch that raises was stopped by the Input Builder or by the
    launch of orca for one molecule [k], never by the reader.  By then the
    molecules before [k] have been handled in full: each has its line in
    done.log or undone.log and, with [save], orkanized.csv was last written
    with their [k] rows.  For molecule [k] itself the line is printed and
    at most [{k}.inp] is written; nothing is done for the molecules after
    it. *)
Theorem batch_cut_short
    (fl : str → option bool) (w : world) (molecules : list str) (save : bool)
    (tr tr' : list event) (e : exn) :
  orcanize_many fl w molecules save tr = (Raise e, tr') →
  ∃ (k : nat) smiles (outcomes : list (option (gmap (list N) (list N))))
    new tail,
    let before := enumerate (take k molecules) in
    let started := tr ++ new ++ [PrintLine (log_line (Z.of_nat k) smiles)] in
    molecules !! k = Some smiles ∧ length outcomes = k ∧
    tr' = started ++ tail ∧
    ((tail = [] ∧ job_text w started smiles = Raise e) ∨
     (∃ text,
        tail = [WriteFile (fmt (Z.of_nat k) ++ lit ".inp") text] ∧
        job_text w started smiles = Ok text ∧
        launch w (started ++ tail) (orca_argv smiles) = Raise e)) ∧
    Forall2 (outcome_of fl w) before outcomes ∧
    appended (lit "done.log") new =
      (λ p, log_line p.1 p.2) <$> succeeded before outcomes ∧
    appended (lit "undone.log") new =
      (λ p, log_line p.1 p.2) <$> failed before outcomes ∧
    persisted (lit "orkanized.csv") new =
      if save
      then (λ j, take (S j) (default ∅ <$> outcomes)) <$> seq 0 k
      else [].
Proof.
  unfold orcanize_many. intros Hrun.
  apply for_each_raise_split in Hrun
    as (before & nb & smiles & after & t & tr1 & Hsplit & Hpre & Horc).
  apply enumerate_split in Hsplit as (-> & Hk & Hbefore).
  apply for_each_completed in Hpre
    as (outcomes & new & Hlen & -> & _ & Hout & Hdone & Hundone & Hcsv).
  cbn [app] in Hcsv.
  set (k := length before) in *.
  exists k, smiles, outcomes, new.
  rewrite orcanize_eq in Horc.
  assert (Hstarted : (tr ++ new) ++ [PrintLine (log_line (Z.of_nat k) smiles)]
                     = tr ++ new ++ [PrintLine (log_line (Z.of_nat k) smiles)])
    by (rewrite <- app_assoc; reflexivity).
  rewrite Hstarted in Horc.
  set (started := tr ++ new ++ [PrintLine (log_line (Z.of_nat k) smiles)]) in *.
  assert (Hrest :
    Forall2 (outcome_of fl w) (enumerate (take k molecules)) outcomes ∧
    appended (lit "done.log") new =
      (λ p, log_line p.1 p.2) <$> succeeded (enumerate (take k molecules)) outcomes ∧
    appended (lit "undone.log") new =
      (λ p, log_line p.1 p.2) <$> failed (enumerate (take k molecules)) outcomes ∧
    persisted (lit "orkanized.csv") new =
      if save
      then (λ j, take (S j) (default ∅ <$> outcomes)) <$> seq 0 k
      else []).
  { rewrite <- Hbefore. done. }
  destruct (job_text w started smiles) as [text|e1] eqn:Hjob.
  - cbv zeta in Horc.
    destruct (launch w _ _) as [[]|e2] eqn:Hlaunch.
    + destruct (orca_reader fl w smiles _ _) as [[m|e3] tr3]; discriminate Horc.
    + injection Horc as <- <-.
      exists [WriteFile (fmt (Z.of_nat k) ++ lit ".inp") text].
      cbv zeta. split; [exact Hk|]. split; [exact Hlen|].
      split; [reflexivity|]. split; [|exact Hrest].
      right. exists text. done.
  - injection Horc as <- <-. exists []. cbv zeta.
    split; [exact Hk|]. split; [exact Hlen|].
    split; [rewrite app_nil_r; reflexivity|]. split; [|exact Hrest].
    left. done.
Qed.

Lemma batch_cut_short_rejected :
  ∃ (k : nat) smiles (outcomes : list (option (gmap (list N) (list N))))
    new tail,
    let before := enumerate (take k rejected_batch) in
    let started := [] ++ new ++ [PrintLine (log_line (Z.of_nat k) smiles)] in
    rejected_batch !! k = Some smiles ∧ length outcomes = k ∧
    snd (orcanize_many py_float_gt0 rejecting_world rejected_batch true [])
      = started ++ tail ∧
    ((tail = [] ∧ job_text rejecting_world started smiles = Raise RDKitError) ∨
     (∃ text,
        tail = [WriteFile (fmt (Z.of_nat k) ++ lit ".inp") text] ∧
        job_text rejecting_world started smiles = Ok text ∧
        launch rejecting_world (started ++ tail) (orca_argv smiles)
          = Raise RDKitError)) ∧
    Forall2 (outcome_of py_float_gt0 rejecting_world) before outcomes ∧
    appended (lit "done.log") new =
      (λ p, log_line p.1 p.2) <$> succeeded before outcomes ∧
    appended (lit "undone.log") new =
      (λ p, log_line p.1 p.2) <$> failed before outcomes ∧
    persisted (lit "orkanized.csv") new =
      if true
      then (λ j, take (S j) (default ∅ <$> outcomes)) <$> seq 0 k
      else [].
Proof.
  apply (batch_cut_short py_float_gt0 rejecting_world rejected_batch true []
           (snd (orcanize_many py_float_gt0 rejecting_world rejected_batch
                   true []))
           RDKitError).
  vm_compute. reflexivity.
Defined.

(** ** The order of a batch *)

Section BatchOrder.

Variable fl : str → option bool.
Variable w : world.

Lemma for_each_trace save pairs : ∀ outdata tr result_table tr',
  for_each fl w save pairs outdata tr = (Ok result_table, tr') →
  ∃ runs,
    (λ r, r.1.1) <$> runs = pairs ∧
    tr' = tr ++ batch_trace save outdata runs ∧
    result_table = outdata ++ ((λ r, default ∅ r.2) <$> runs).
Proof.
  induction pairs as [|[nb smiles] rest IH]; intros outdata tr t tr' Hrun.
  - injection Hrun as <- <-. exists []. rewrite !app_nil_r. done.
  - rewrite for_each_cons in Hrun.
    destruct (orcanize fl w smiles nb _) as [[dat|e] tr1] eqn:Horc;
      [|discriminate Hrun].
    apply orcanize_returns in Horc as (text & log & -> & _ & Hlog).
    cbv zeta in Hrun.
    set (outdata' := append outdata (DataFrame dat)) in Hrun.
    set (csv := if save then [ToCsv (lit "orkanized.csv") outdata'] else []).
    assert (Htr : ∀ t0, (if save then t0 ++ [ToCsv (lit "orkanized.csv") outdata']
                         else t0) = t0 ++ csv).
    { intros t0. unfold csv. destruct save; [reflexivity|].
      rewrite app_nil_r. reflexivity. }
    rewrite Htr in Hrun.
    apply IH in Hrun as (runs & <- & -> & ->).
    exists ((nb, smiles, text, dat) :: runs).
    split; [reflexivity|]. split.
    + cbn [batch_trace]. fold outdata'. fold csv.
      assert (Hl : log = lit (match dat with
                            | Some _ => "done.log" | None => "undone.log"
                            end)).
      { destruct Hlog as [[[m ->] ->]|[-> ->]]; reflexivity. }
      rewrite <- Hl, <- !app_assoc. reflexivity.
    + unfold outdata', append, DataFrame. rewrite <- app_assoc. reflexivity.
Qed.

End BatchOrder.

(** X17: a batch that runs to its end handles its molecules strictly one
    after the other, in submission order.  For each molecule, and before
    anything is done for the next: its line is printed, [{nb}.inp] is
    written, orca is started, [{nb}.out] is read, the line is appended to
    done.log when a mapping came back and to undone.log otherwise, and with
    [save] the table, this molecule's row included, is written to
    orkanized.csv.  Nothing else happens. *)
Theorem batch_in_order
    (fl : str → option bool) (w : world) (molecules : list str) (save : bool)
    (tr tr' : list event) (result_table : table) :
  orcanize_many fl w molecules save tr = (Ok result_table, tr') →
  ∃ runs,
    (λ r, r.1.1) <$> runs = enumerate molecules ∧
    tr' = tr ++ batch_trace save [] runs ∧
    result_table = (λ r, default ∅ r.2) <$> runs.
Proof. unfold orcanize_many. apply for_each_trace. Qed.

Lemma batch_in_order_scenario :
  ∃ runs,
    (λ r, r.1.1) <$> runs = enumerate sample_batch ∧
    snd (orcanize_many py_float_gt0 sample_batch_world sample_batch true [])
      = [] ++ batch_trace true [] runs ∧
    [sample_orbitals_props; {[lit "smiles" := lit "CC"]}; sample_dipole_props]
      = (λ r, default ∅ r.2) <$> runs.
Proof.
  apply (batch_in_order py_float_gt0 sample_batch_world sample_batch true []).
  vm_compute. reflexivity.
Defined.
